(** * DevSpace dev pods: manager, prefix logger and port forwarding

    A shallow embedding of three Go files of the repository

    - [pkg/devspace/devpod/manager.go]          (module [DevPod]),
    - the prefix logger of package [log]        (module [Log]),
    - [pkg/devspace/services/portforwarding/portforwarding.go]
                                                (module [PortForwarding]),

    together with the properties the specification states about them
    (modules [LogFacts], [DevPodFacts] and [PortForwardingFacts]).
    Goroutines, channels and timers are modelled by explicit environments:
    every value the code obtains from a collaborator (the session, the
    cluster client, the clock, the scheduler's choice in a [select]) is an
    argument of the embedded function, and every effect it has on a
    collaborator is an event of the trace it returns. *)

From Stdlib Require Import ZArith String Ascii DecimalString Bool Lia.
From stdpp Require Import gmap strings list.

Open Scope Z_scope.

(** ** Go's built-in types *)

Module Go.

(** [int] is 32 or 64 bits wide, depending on the target the program is
    built for. *)
Inductive intSize := Int32 | Int64.

Definition bits (sz : intSize) : Z :=
  match sz with Int32 => 32 | Int64 => 64 end.

Definition minInt (sz : intSize) : Z := - 2 ^ (bits sz - 1).
Definition maxInt (sz : intSize) : Z := 2 ^ (bits sz - 1) - 1.

(** Two's complement wrap-around: the value of an integer expression
    after it is truncated to [int]. *)
Definition wrap (sz : intSize) (x : Z) : Z :=
  (x + 2 ^ (bits sz - 1)) mod 2 ^ bits sz - 2 ^ (bits sz - 1).

(** The conversion [int(x)]. *)
Definition toInt (sz : intSize) (x : Z) : Z := wrap sz x.

(** [a * b] on [int]. *)
Definition mul (sz : intSize) (a b : Z) : Z := wrap sz (a * b).

(** [a % b]: the remainder of the division truncated toward zero, which
    takes the sign of [a]. *)
Definition rem (a b : Z) : Z := Z.rem a b.

(** [s[i]]: [None] stands for the run-time panic "index out of range". *)
Definition index {A : Type} (s : list A) (i : Z) : option A :=
  if (0 <=? i) && (i <? Z.of_nat (length s)) then s !! Z.to_nat i else None.

(** [strconv.Itoa]. *)
Definition Itoa (i : Z) : string := NilEmpty.string_of_int (Z.to_int i).

(** [strings.Join]. *)
Definition Join (elems : list string) (sep : string) : string :=
  String.concat sep elems.

(** [time.Duration] counts nanoseconds. *)
Definition Second : Z := 1000000000.

(** The bytes of a string. *)
Fixpoint bytes (s : string) : list Z :=
  match s with
  | EmptyString => []
  | String c s' => Z.of_N (N_of_ascii c) :: bytes s'
  end.

Definition newline : string := String (ascii_of_nat 10) EmptyString.

End Go.

(** ** Errors

    The error values the three files create or inspect.  [Errorf] keeps
    the format and its arguments apart, as the call sites write them. *)

Inductive arg :=
| AStr (s : string)
| AInt (i : Z)
| AErr (e : error)
with error :=
| DevPodAlreadyExists
| DevPodLostConnection
| Errorf (format : string) (args : list arg)
| Wrapped (cause : error) (message : string).

(** [errors.Wrap(err, message)]: [nil] stays [nil]. *)
Definition Wrap (err : option error) (message : string) : option error :=
  match err with
  | None => None
  | Some e => Some (Wrapped e message)
  end.

(** The type assertions [err.(DevPodAlreadyExists)] and
    [err.(DevPodLostConnection)]: they look at the dynamic type of the
    value itself, not through a wrapper. *)
Definition isDevPodAlreadyExists (e : error) : bool :=
  match e with DevPodAlreadyExists => true | _ => false end.

Definition isDevPodLostConnection (e : option error) : bool :=
  match e with Some DevPodLostConnection => true | _ => false end.

(** ** Package log: the prefix logger *)

Module Log.

(** logrus levels, in the order of their numeric values 0..6. *)
Inductive Level :=
| PanicLevel | FatalLevel | ErrorLevel | WarnLevel
| InfoLevel | DebugLevel | TraceLevel.

Definition levelNum (l : Level) : Z :=
  match l with
  | PanicLevel => 0 | FatalLevel => 1 | ErrorLevel => 2 | WarnLevel => 3
  | InfoLevel => 4 | DebugLevel => 5 | TraceLevel => 6
  end.

Definition Level_eqb (a b : Level) : bool := levelNum a =? levelNum b.

Definition Colors : list string :=
  ["blue"; "green"; "yellow"; "magenta"; "cyan"; "white+b"]%string.

(** The logger behind the [Logger] interface that a prefix logger
    decorates.  Only its level is read; what is written to it is
    recorded as an event. *)
Record Logger := { GetLevel_base : Level }.

Record prefixLogger := {
  base : Logger;
  level : Level;
  prefix : string;
  color : string;
  m : bool  (* the mutex: [true] while it is held *)
}.

(** Modelled from the spec: hash.StringToNumber (package pkg/util/hash)
    is not among the sources; the specification only says that the
    colour comes from "a hash of the name".  The definitions below take
    the hash as a parameter.  [fnv32a] is the 32-bit FNV-1a sum of the
    bytes, the function the package computes upstream; it instantiates
    the parameter in the examples. *)
Definition fnv32a (s : string) : Z :=
  fold_left (fun h b => (Z.lxor h b * 16777619) mod 2 ^ 32) (Go.bytes s) 2166136261.

Section Constructor.

Variable sz : Go.intSize.
Variable StringToNumber : string -> Z.

(** [hashNumber] after the [if hashNumber < 0] adjustment. *)
Definition hashNumber (prefix : string) : Z :=
  let hashNumber := Go.toInt sz (StringToNumber prefix) in
  if hashNumber <? 0 then Go.mul sz hashNumber (-1) else hashNumber.

(** [hashNumber % len(Colors)]. *)
Definition colorIndex (prefix : string) : Z :=
  Go.rem (hashNumber prefix) (Z.of_nat (length Colors)).

(** [None]: the constructor panics on [Colors[...]]. *)
Definition NewDefaultPrefixLogger (prefix : string) (base : Logger)
  : option prefixLogger :=
  match Go.index Colors (colorIndex prefix) with
  | Some c =>
      Some {| base := base; level := GetLevel_base base;
              color := c; prefix := prefix; m := false |}
  | None => None
  end.

End Constructor.

Definition NewPrefixLogger (prefix color : string) (base : Logger) : prefixLogger :=
  {| base := base; level := GetLevel_base base;
     color := color; prefix := prefix; m := false |}.

(** *** Methods

    A method runs on the logger object and the text written so far to
    the base logger.  It returns to its caller, ends the process
    ([os.Exit]) or blocks for ever on the mutex it holds already. *)

Inductive event := BaseWriteString (level : Level) (message : string).

Inductive outcome (A : Type) :=
| Returned (a : A)
| Exited (code : Z)
| Blocked.
Arguments Returned {A} a.
Arguments Exited {A} code.
Arguments Blocked {A}.

Record world := { self : prefixLogger; written : list event }.

Definition M (A : Type) : Type := world -> world * outcome A.

Definition ret {A} (a : A) : M A := fun w => (w, Returned a).

Definition bind {A B} (c : M A) (k : A -> M B) : M B :=
  fun w =>
    match c w with
    | (w', Returned a) => k a w'
    | (w', Exited code) => (w', Exited code)
    | (w', Blocked) => (w', Blocked)
    end.

Notation "x <- c ;; k" := (bind c (fun x => k))
  (at level 100, c at next level, right associativity).
Notation "c ;;; k" := (bind c (fun _ => k))
  (at level 100, right associativity).

Definition this : M prefixLogger := fun w => (w, Returned (self w)).

Definition setMutex (held : bool) : M unit :=
  fun w =>
    let s := self w in
    ({| self := {| base := base s; level := level s; prefix := prefix s;
                   color := color s; m := held |};
        written := written w |}, Returned tt).

(** [s.m.Lock()]: [sync.Mutex] is not reentrant. *)
Definition Lock : M unit :=
  fun w => if m (self w) then (w, Blocked) else setMutex true w.

Definition Unlock : M unit := setMutex false.

(** [s.m.Lock(); defer s.m.Unlock(); body]: the deferred call runs when
    the body returns, not when it exits the process. *)
Definition locked {A} (body : M A) : M A :=
  Lock ;;; (r <- body ;; (Unlock ;;; ret r)).

Definition baseWriteString (lvl : Level) (message : string) : M unit :=
  fun w => ({| self := self w;
               written := written w ++ [BaseWriteString lvl message] |},
            Returned tt).

Definition osExit (code : Z) : M unit := fun w => (w, Exited code).

Definition GetLevel : M Level := locked (s <- this ;; ret (level s)).

Section Methods.

(** [os.Getenv(DevSpaceLogTimestamps)], [time.Now()] as hour, minute
    and second, and the two text helpers that are not in the file. *)
Variable timestamps : string.
Variable now : Z * Z * Z.
Variable formatInt : Z -> string.
Variable ansiColor : string -> string -> string.

Definition clock : string :=
  let '(h, mi, s) := now in
  (formatInt h +:+ ":" +:+ formatInt mi +:+ ":" +:+ formatInt s +:+ " ")%string.

Definition writeMessage (lvl : Level) (message : string) : M unit :=
  s <- this ;;
  if levelNum lvl <=? levelNum (level s) then
    stamped <- (if String.eqb timestamps "true" then ret true
                else l <- GetLevel ;; ret (Level_eqb l DebugLevel)) ;;
    if stamped then
      if negb (String.eqb (color s) "") then
        baseWriteString lvl
          (ansiColor clock "white+b" +:+ ansiColor (prefix s) (color s) +:+ message)
      else
        baseWriteString lvl (clock +:+ prefix s +:+ message)
    else
      if negb (String.eqb (color s) "") then
        baseWriteString lvl (ansiColor (prefix s) (color s) +:+ message)
      else
        baseWriteString lvl (prefix s +:+ message)
  else ret tt.

(** In the methods below [msg] is the text [fmt.Sprintln(args...)] or
    [fmt.Sprintf(format, args...)] produced from the arguments. *)
Definition Debug (msg : string) : M unit := locked (writeMessage DebugLevel msg).
Definition Debugf (msg : string) : M unit :=
  locked (writeMessage DebugLevel (msg +:+ Go.newline)).
Definition Info (msg : string) : M unit := locked (writeMessage InfoLevel msg).
Definition Infof (msg : string) : M unit :=
  locked (writeMessage InfoLevel (msg +:+ Go.newline)).
Definition Warn (msg : string) : M unit :=
  locked (writeMessage WarnLevel ("Warning: " +:+ msg)).
Definition Warnf (msg : string) : M unit :=
  locked (writeMessage WarnLevel ("Warning: " +:+ msg +:+ Go.newline)).
Definition Error (msg : string) : M unit :=
  locked (writeMessage ErrorLevel ("Error: " +:+ msg)).
Definition Errorf (msg : string) : M unit :=
  locked (writeMessage ErrorLevel ("Error: " +:+ msg +:+ Go.newline)).
Definition Fatal (msg : string) : M unit :=
  locked (writeMessage FatalLevel ("Fatal: " +:+ msg) ;;; osExit 1).
Definition Fatalf (msg : string) : M unit :=
  locked (writeMessage FatalLevel ("Fatal: " +:+ msg +:+ Go.newline) ;;; osExit 1).
Definition Done (msg : string) : M unit := locked (writeMessage InfoLevel msg).
Definition Donef (msg : string) : M unit :=
  locked (writeMessage InfoLevel (msg +:+ Go.newline)).

Definition Print (lvl : Level) (msg : string) : M unit :=
  match lvl with
  | InfoLevel => Info msg
  | DebugLevel => Debug msg
  | WarnLevel => Warn msg
  | ErrorLevel => Error msg
  | FatalLevel => Fatal msg
  | _ => ret tt
  end.

Definition Printf (lvl : Level) (msg : string) : M unit :=
  match lvl with
  | InfoLevel => Infof msg
  | DebugLevel => Debugf msg
  | WarnLevel => Warnf msg
  | ErrorLevel => Errorf msg
  | FatalLevel => Fatalf msg
  | _ => ret tt
  end.

End Methods.

(** A call on a logger to whose base nothing has been written yet. *)
Definition call {A} (s : prefixLogger) (c : M A) : world * outcome A :=
  c {| self := s; written := [] |}.

(** The call never ends the process. *)
Definition neverExits {A} (c : M A) : Prop :=
  forall w code, snd (c w) <> Exited code.

(** The levelled calls other than [Fatal] and [Fatalf]. *)
Definition leveled (timestamps : string) (now : Z * Z * Z) (formatInt : Z -> string)
           (ansiColor : string -> string -> string) (msg : string) : list (M unit) :=
  [Debug timestamps now formatInt ansiColor msg;
   Debugf timestamps now formatInt ansiColor msg;
   Info timestamps now formatInt ansiColor msg;
   Infof timestamps now formatInt ansiColor msg;
   Warn timestamps now formatInt ansiColor msg;
   Warnf timestamps now formatInt ansiColor msg;
   Error timestamps now formatInt ansiColor msg;
   Errorf timestamps now formatInt ansiColor msg;
   Done timestamps now formatInt ansiColor msg;
   Donef timestamps now formatInt ansiColor msg].

(** A logger for the examples; [plain] stands for [ansi.Color] on a
    terminal without colours. *)
Definition exampleLogger : prefixLogger :=
  NewPrefixLogger "api " "blue" {| GetLevel_base := InfoLevel |}.

Definition exampleNow : Z * Z * Z := (12, 30, 5).

Definition plain (text style : string) : string := text.


(** *** The other methods of the logger *)

Definition setLevel (lvl : Level) : M unit :=
  fun w =>
    let s := self w in
    ({| self := {| base := base s; level := lvl; prefix := prefix s;
                   color := color s; m := m s |};
        written := written w |}, Returned tt).

Definition SetLevel (lvl : Level) : M unit := locked (setLevel lvl).

Definition WriteString (lvl : Level) (message : string) : M unit :=
  locked (s <- this ;;
          if levelNum (level s) <? levelNum lvl then ret tt
          else baseWriteString lvl message).

(** The logger while its mutex is held, and with another level. *)
Definition held (s : prefixLogger) : prefixLogger :=
  {| base := base s; level := level s; prefix := prefix s; color := color s; m := true |}.

Definition atLevel (lvl : Level) (s : prefixLogger) : prefixLogger :=
  {| base := base s; level := lvl; prefix := prefix s; color := color s; m := m s |}.

(** The line that goes to the base logger when timestamps are on. *)
Definition stamped (now : Z * Z * Z) (formatInt : Z -> string)
           (ansiColor : string -> string -> string) (s : prefixLogger)
           (body : string) : string :=
  if negb (String.eqb (color s) "") then
    ansiColor (clock now formatInt) "white+b" +:+ ansiColor (prefix s) (color s) +:+ body
  else
    clock now formatInt +:+ prefix s +:+ body.

(** The levelled calls that return, each with its level and with the
    text it hands to [writeMessage]; and the two that exit. *)
Definition calls (timestamps : string) (now : Z * Z * Z) (formatInt : Z -> string)
           (ansiColor : string -> string -> string) (msg : string)
  : list (Level * string * M unit) :=
  [(DebugLevel, msg, Debug timestamps now formatInt ansiColor msg);
   (DebugLevel, msg +:+ Go.newline, Debugf timestamps now formatInt ansiColor msg);
   (InfoLevel, msg, Info timestamps now formatInt ansiColor msg);
   (InfoLevel, msg +:+ Go.newline, Infof timestamps now formatInt ansiColor msg);
   (WarnLevel, "Warning: " +:+ msg, Warn timestamps now formatInt ansiColor msg);
   (WarnLevel, "Warning: " +:+ msg +:+ Go.newline,
    Warnf timestamps now formatInt ansiColor msg);
   (ErrorLevel, "Error: " +:+ msg, Error timestamps now formatInt ansiColor msg);
   (ErrorLevel, "Error: " +:+ msg +:+ Go.newline,
    Errorf timestamps now formatInt ansiColor msg);
   (InfoLevel, msg, Done timestamps now formatInt ansiColor msg);
   (InfoLevel, msg +:+ Go.newline, Donef timestamps now formatInt ansiColor msg)]%string.

Definition fatalCalls (timestamps : string) (now : Z * Z * Z) (formatInt : Z -> string)
           (ansiColor : string -> string -> string) (msg : string)
  : list (Level * string * M unit) :=
  [(FatalLevel, "Fatal: " +:+ msg, Fatal timestamps now formatInt ansiColor msg);
   (FatalLevel, "Fatal: " +:+ msg +:+ Go.newline,
    Fatalf timestamps now formatInt ansiColor msg)]%string.

End Log.

(** ** Package devpod: the manager *)

Module DevPod.

(** Modelled from the spec: the session type [devPod] (newDevPod, Start,
    Stop, Alive, Done, Err) is not among the sources.  Following the
    specification a session has a [done] signal that fires once, on
    terminal completion, and a terminal error that is [nil] on a clean
    stop; it is alive until [done] has fired. *)
Record devPod := { done : bool; err : option error }.

Definition newDevPod : devPod := {| done := false; err := None |}.

Definition Alive (dp : devPod) : bool := negb (done dp).

(** Modelled from the spec: [dp.Stop()] takes a live session to its
    terminal state; the error of a clean stop is [nil].  A session that
    has completed already keeps its terminal error. *)
Definition Stop_session (dp : devPod) : devPod :=
  if done dp then dp else {| done := true; err := None |}.

(** The session completes by itself with terminal error [e]. *)
Definition complete (e : option error) (dp : devPod) : devPod :=
  if done dp then dp else {| done := true; err := e |}.

(** What [dp.Start(ctx, devPodConfig)] does is decided by the cluster:
    it returns [nil] and the session runs, or it returns an error and
    leaves the session in some state [after]. *)
Inductive startOutcome :=
| Started
| StartFailed (e : error) (after : devPod).

(** The manager.  A [*devPod] is an index into [sessions], the sessions
    allocated so far; [devPods] is the registry.  (The field
    [restartPods] is not used by any function of the file.)

    [Start], [Stop] and [Reset] hold the lock of the name from entry to
    return, so the calls for one name run one after the other; they
    touch [devPods] only under [mapLock] and only at their own name.
    Each call is therefore one step on this state. *)
Record devPodManager := {
  sessions : list devPod;
  devPods : gmap string nat
}.

Definition NewManager : devPodManager := {| sessions := []; devPods := ∅ |}.

(** [dp != nil && dp.Alive()] for [dp = d.devPods[name]]. *)
Definition aliveIn (m : devPodManager) (name : string) : bool :=
  match devPods m !! name with
  | Some p =>
      match sessions m !! p with
      | Some dp => Alive dp
      | None => false
      end
  | None => false
  end.

(** What a call of [Start] gives its caller: [nil], in which case the
    goroutine that watches session [watched] has been started; an error;
    or a panic that unwinds the call. *)
Inductive result :=
| Ok (watched : nat)
| Failed (e : error)
| Panicked.

Section Manager.

(** The width of [int], the hash of package hash, and the logger
    [originalContext.Log.WithoutPrefix()]. *)
Variable sz : Go.intSize.
Variable StringToNumber : string -> Z.
Variable base : Log.Logger.

Definition Start (m : devPodManager) (name : string) (o : startOutcome)
  : devPodManager * result :=
  (* create a DevPod logger: the prefix logger is built first and may
     panic; its union with the file logger of the name is made by
     constructors outside the file and plays no part in what follows *)
  match Log.NewDefaultPrefixLogger sz StringToNumber name base with
  | None => (m, Panicked)
  | Some _ =>
      (* check if already running *)
      if aliveIn m name then (m, Failed DevPodAlreadyExists)
      else
        (* create a new dev pod *)
        let p := length (sessions m) in
        let registered := <[name := p]> (devPods m) in
        (* start the dev pod *)
        match o with
        | StartFailed e after =>
            ({| sessions := sessions m ++ [after]; devPods := registered |},
             Failed e)
        | Started =>
            ({| sessions := sessions m ++ [newDevPod]; devPods := registered |},
             Ok p)
        end
  end.

Definition stop (m : devPodManager) (name : string) : devPodManager :=
  match devPods m !! name with
  | None => m
  | Some p =>
      {| sessions := alter Stop_session p (sessions m);
         devPods := delete name (devPods m) |}
  end.

Definition Stop (m : devPodManager) (name : string) : devPodManager :=
  stop m name.

(** [cached] is what the remote cache and the pod replacer answer:
    [None] when no replaced pod is recorded for the name, otherwise
    the error returned by [RevertReplacePod]. *)
Definition Reset (m : devPodManager) (name : string)
           (cached : option (option error)) : devPodManager * option error :=
  (stop m name, match cached with Some e => e | None => None end).

(** The session at [p] completes (its [Done] channel is closed). *)
Definition sessionDone (m : devPodManager) (p : nat) (e : option error)
  : devPodManager :=
  {| sessions := alter (complete e) p (sessions m); devPods := devPods m |}.

(** *** Reachable states *)

Inductive op :=
| OpStart (name : string) (o : startOutcome)
| OpStop (name : string)
| OpReset (name : string) (cached : option (option error))
| OpDone (p : nat) (e : option error).

Definition step (m : devPodManager) (o : op) : devPodManager :=
  match o with
  | OpStart name so => fst (Start m name so)
  | OpStop name => Stop m name
  | OpReset name cached => fst (Reset m name cached)
  | OpDone p e => sessionDone m p e
  end.

Definition run (m : devPodManager) (ops : list op) : devPodManager :=
  fold_left step ops m.

Inductive reachable : devPodManager -> Prop :=
| reachable_new : reachable NewManager
| reachable_step m o : reachable m -> reachable (step m o).

(** Calls of [Start] for one name, in the order in which they obtain
    the lock of the name. *)
Fixpoint Starts (m : devPodManager) (name : string) (os : list startOutcome)
  : devPodManager * list result :=
  match os with
  | [] => (m, [])
  | o :: os' =>
      let '(m1, r) := Start m name o in
      let '(m2, rs) := Starts m1 name os' in
      (m2, r :: rs)
  end.

Definition isOk (r : result) : bool :=
  match r with Ok _ => true | _ => false end.

Definition isConflict (r : result) : bool :=
  match r with Failed e => isDevPodAlreadyExists e | _ => false end.

(** *** The goroutine started by a successful [Start] *)

Inductive event :=
| CallStart (name : string) (r : result)
| LogInfof (format : string) (args : list arg)
| Sleep (d : Z).

(** What the surroundings do around one pass of the restart loop: the
    operations other goroutines perform on the manager before the
    call, what the session's own start does, and what
    [originalContext.IsDone()] answers after a failed call. *)
Record attempt := {
  others : list op;
  outcome : startOutcome;
  isDone : bool
}.

Inductive status :=
| Waiting      (* blocked on [<-dp.Done()] *)
| Looping      (* in the loop: the script of attempts is used up *)
| Returned     (* the goroutine has returned *)
| Crashed.     (* a panic in [Start] has unwound the goroutine *)

Fixpoint restartLoop (m : devPodManager) (name : string) (script : list attempt)
  : list event * devPodManager * status :=
  match script with
  | [] => ([], m, Looping)
  | a :: script' =>
      let '(m1, r) := Start (run m (others a)) name (outcome a) in
      match r with
      | Ok _ => ([CallStart name r], m1, Returned)
      | Panicked => ([CallStart name r], m1, Crashed)
      | Failed e =>
          if isDone a then ([CallStart name r], m1, Returned)
          else if isDevPodAlreadyExists e then ([CallStart name r], m1, Returned)
          else
            let '(tr, m2, st) := restartLoop m1 name script' in
            (CallStart name r
             :: LogInfof "Restart dev %s because of: %v" [AStr name; AErr e]
             :: Sleep (10 * Go.Second) :: tr, m2, st)
      end
  end.

(** The goroutine for session [p]; [cancelled] is what
    [originalContext.IsDone()] answers once [dp.Done()] has fired. *)
Definition watcher (m : devPodManager) (p : nat) (name : string)
           (cancelled : bool) (script : list attempt)
  : list event * devPodManager * status :=
  match sessions m !! p with
  | Some dp =>
      if done dp then
        if cancelled then ([], m, Returned)
        else if isDevPodLostConnection (err dp) then restartLoop m name script
        else ([], m, Returned)
      else ([], m, Waiting)
  | None => ([], m, Waiting)
  end.

(** *** Vocabulary of the properties *)

(** The registry is well formed: it points into [sessions], no session
    is registered twice, every live session is registered, and the
    logger of every registered name can be built. *)
Record wellFormed (m : devPodManager) : Prop := {
  wf_allocated : forall name p,
    devPods m !! name = Some p -> (p < length (sessions m))%nat;
  wf_unshared : forall name name' p,
    devPods m !! name = Some p -> devPods m !! name' = Some p -> name = name';
  wf_registered : forall p dp,
    sessions m !! p = Some dp -> Alive dp = true ->
    exists name, devPods m !! name = Some p;
  wf_logger : forall name p,
    devPods m !! name = Some p ->
    is_Some (Log.NewDefaultPrefixLogger sz StringToNumber name base)
}.

(** "Exactly one succeeds and all others receive Conflict." *)
Definition oneWinner (rs : list result) : Prop :=
  exists before p after,
    rs = before ++ Ok p :: after
    /\ Forall (fun r => isConflict r = true) before
    /\ Forall (fun r => isConflict r = true) after.

(** One pass of the restart loop that failed and is tried again. *)
Definition backoff (name : string) (e : error) : list event :=
  [CallStart name (Failed e);
   LogInfof "Restart dev %s because of: %v" [AStr name; AErr e];
   Sleep (10 * Go.Second)].

(** The pass ends the loop: the call succeeded, or it failed and the
    context is cancelled or the failure is Conflict. *)
Definition ends (a : attempt) (r : result) : Prop :=
  match r with
  | Ok _ => True
  | Failed e => isDone a = true \/ isDevPodAlreadyExists e = true
  | Panicked => False
  end.

(** The shape of a run of the restart loop: calls that failed and
    were followed by the log line and the sleep, then, unless the
    script is used up, the one call that ends the loop. *)
Definition loopShape (name : string) (script : list attempt)
           (run : list event * devPodManager * status) : Prop :=
  exists failures final,
    fst (fst run) = flat_map (backoff name) failures ++ final
    /\ Forall2 (fun a e => isDone a = false /\ isDevPodAlreadyExists e = false)
               (take (length failures) script) failures
    /\ match snd run with
       | Looping => final = [] /\ length failures = length script
       | Returned =>
           exists a r, script !! length failures = Some a
                       /\ final = [CallStart name r] /\ ends a r
       | _ => False
       end.

End Manager.

(** Inputs of the examples. *)
Definition noPod : error := Errorf "no pod found" [].

Definition exampleBase : Log.Logger := {| Log.GetLevel_base := Log.InfoLevel |}.

Definition lost : devPod := {| done := true; err := Some DevPodLostConnection |}.

(** A 64-bit build with the FNV-1a hash, after one successful [Start]
    of "api". *)
Definition apiRunning : devPodManager :=
  step Go.Int64 Log.fnv32a exampleBase NewManager (OpStart "api" Started).

(** The same manager once the session of "api" has lost its connection,
    and a script for the restart loop: two calls whose session does not
    start, then one that succeeds. *)
Definition lostApi : devPodManager :=
  sessionDone apiRunning 0 (Some DevPodLostConnection).

Definition exampleScript : list attempt :=
  [{| others := []; outcome := StartFailed noPod {| done := true; err := Some noPod |};
      isDone := false |};
   {| others := []; outcome := StartFailed noPod {| done := true; err := Some noPod |};
      isDone := false |};
   {| others := []; outcome := Started; isDone := false |}].


(** *** StartMultiple *)

(** [stringutil.Contains], from a package outside the file: membership
    in a slice. *)
Definition Contains (s : list string) (e : string) : bool :=
  existsb (String.eqb e) s.

(** The dev pods for which [StartMultiple] starts a member calling
    [Start].  [dev] lists the configured dev pods, each with its key in
    the configuration and the name in its [DevPod] value, in the order
    in which the loop meets them; the loop tests the key and [Start]
    uses the name. *)
Definition started (dev : list (string * string)) (devPods : list string)
  : list string :=
  map snd
      (List.filter
         (fun entry => negb ((0 <? length devPods)%nat
                             && negb (Contains devPods (fst entry))))
         dev).

(** The members run concurrently, each through one call of [Start];
    the calls take effect in some order, here the order of the list.  A
    panic ends the process, and with it the run. *)
Fixpoint StartEach (sz : Go.intSize) (StringToNumber : string -> Z) (base : Log.Logger)
         (m : devPodManager) (names : list string) (outcome : string -> startOutcome)
  : devPodManager * list result :=
  match names with
  | [] => (m, [])
  | name :: rest =>
      let '(m1, r) := Start sz StringToNumber base m name (outcome name) in
      match r with
      | Panicked => (m1, [r])
      | _ =>
          let '(m2, rs) := StartEach sz StringToNumber base m1 rest outcome in
          (m2, r :: rs)
      end
  end.

(** Modelled from the spec: [tomb.Wait()] comes from package tomb, which
    is not among the sources; the join "returns the first error from
    any of the started sessions". *)
Definition firstError (rs : list result) : option error :=
  match List.filter (fun r => negb (isOk r)) rs with
  | Failed e :: _ => Some e
  | _ => None
  end.

Definition StartMultiple (sz : Go.intSize) (StringToNumber : string -> Z)
           (base : Log.Logger) (m : devPodManager) (dev : list (string * string))
           (devPods : list string) (outcome : string -> startOutcome)
  : devPodManager * option error :=
  let '(m', rs) := StartEach sz StringToNumber base m (started dev devPods) outcome in
  (m', firstError rs).

End DevPod.

(** ** Package portforwarding *)

Module PortForwarding.

(** [latest.PortMapping]: [LocalPort] and [RemotePort] are [*int]. *)
Record PortMapping := {
  LocalPort : option Z;
  RemotePort : option Z;
  BindAddress : string
}.

Record Pod := { Namespace : string; PodName : string }.

(** Modelled from the spec: the configuration types latest.DevPod and
    latest.DevContainer and the iterator loader.EachDevContainer are not
    among the sources.  A dev pod has a name, forward mappings and dev
    containers, each with reverse mappings and an architecture tag.  In
    the configuration schema a [DevPod] embeds one [DevContainer], so
    that [devPod.PortMappingsReverse] is the field of this inline
    container, and has a collection [Containers] beside it;
    [EachDevContainer] visits the entries of [Containers] when there are
    any and the inline container otherwise. *)
Record DevContainer := {
  Container : string;
  Arch : string;
  PortMappingsReverse : list PortMapping
}.

Record DevPod := {
  Name : string;
  Forward : list PortMapping;
  Inline : DevContainer;
  Containers : list DevContainer
}.

Definition EachDevContainer (devPod : DevPod) : list DevContainer :=
  match Containers devPod with
  | [] => [Inline devPod]
  | cs => cs
  end.

(** *** select

    Each arm of a [select] comes with the time, counted from the moment
    the statement starts to wait, at which its channel becomes ready
    ([None]: never).  The statement proceeds at the earliest such time
    with one of the arms ready then; [pick] stands for the run-time's
    choice among several. *)
Inductive arm := CtxDone | Ready | ErrorSignal | Timer.

Definition sooner (a b : option Z) : option Z :=
  match a, b with
  | Some x, Some y => Some (Z.min x y)
  | Some x, None => Some x
  | None, _ => b
  end.

Definition earliest (arms : list (arm * option Z)) : option Z :=
  foldr (fun a t => sooner (snd a) t) None arms.

Definition firesAt (t : Z) (a : arm * option Z) : bool :=
  match snd a with Some u => u =? t | None => false end.

Definition select (pick : nat) (arms : list (arm * option Z)) : option arm :=
  match earliest arms with
  | None => None
  | Some t =>
      let ready := map fst (List.filter (firesAt t) arms) in
      ready !! (pick mod length ready)%nat
  end.

(** *** startForwarding *)

Inductive event :=
| LogWarnf (format : string) (args : list arg)
| LogDonef (format : string) (args : list arg)
| LogErrorf (format : string) (args : list arg)
| LogDone (message : string)
| NewPortForwarder (pod : Pod) (ports addresses : list string)
| GoForwardPorts                 (* go pf.ForwardPorts(ctx.Context) *)
| GoWatcher                      (* parent.Go(the watcher) *)
| PrintPodError
| Close                          (* pf.Close() *)
| LogExecuteHooks (event name : string) (failure : option error)
| Kill                           (* parent.Kill(nil) *)
| Waited (d : Z).                (* a timer of [d] fired in a select *)

(** What one call of [startForwarding] meets. *)
Record env := {
  isDone : bool;                        (* ctx.IsDone() on entry *)
  selected : error + option Pod;        (* selector.SelectSinglePod *)
  portOpen : Z -> bool;                 (* port.Check *)
  created : option error;               (* the error of NewPortForwarder *)
  cancelledAt : option Z;               (* ctx.Context.Done() *)
  readyAt : option Z;                   (* readyChan *)
  errorAt : option (Z * option error);  (* errorChan and the value sent *)
  pick : nat
}.

Inductive outcome :=
| Return (err : option error)
| Block.

(** The loop over [portMappings], from mapping number [index] on. *)
Fixpoint portLoop (open : Z -> bool) (index : nat) (portMappings : list PortMapping)
  : list event * (error + list string * list string) :=
  match portMappings with
  | [] => ([], inr ([], []))
  | value :: rest =>
      match LocalPort value with
      | None =>
          ([], inl (Errorf "port is not defined in portmapping %d"
                           [AInt (Z.of_nat index)]))
      | Some lp =>
          let localPort := Go.Itoa lp in
          let remotePort :=
            match RemotePort value with
            | Some rp => Go.Itoa rp
            | None => localPort
            end in
          let warning :=
            if open lp then []
            else [LogWarnf "Seems like port %d is already in use. Is another application using that port?"
                           [AInt lp]] in
          let address :=
            if String.eqb (BindAddress value) "" then "localhost"%string
            else BindAddress value in
          let '(evs, r) := portLoop open (S index) rest in
          (warning ++ evs,
           match r with
           | inl e => inl e
           | inr (ports, addresses) =>
               inr ((localPort +:+ ":" +:+ remotePort) :: ports, address :: addresses)
           end)
      end
  end.

Definition startForwarding (e : env) (name : string) (portMappings : list PortMapping)
  : list event * outcome :=
  if isDone e then ([], Return None)
  else
    match selected e with
    | inl err => ([], Return (Wrap (Some err) "error selecting pod"))
    | inr None => ([], Return None)
    | inr (Some pod) =>
        match portLoop (portOpen e) 0 portMappings with
        | (evs, inl err) => (evs, Return (Some err))
        | (evs, inr (ports, addresses)) =>
            match created e with
            | Some err =>
                (evs ++ [NewPortForwarder pod ports addresses],
                 Return (Some (Errorf "Error starting port forwarding: %v" [AErr err])))
            | None =>
                let evs := evs ++ [NewPortForwarder pod ports addresses; GoForwardPorts] in
                (* Wait till forwarding is ready *)
                match select (pick e)
                        [(CtxDone, cancelledAt e); (Ready, readyAt e);
                         (ErrorSignal, fst <$> errorAt e);
                         (Timer, Some (20 * Go.Second))] with
                | Some CtxDone => (evs, Return None)
                | Some Ready =>
                    (evs ++ [LogDonef "Port forwarding started on %s (%s/%s)"
                               [AStr (Go.Join ports ", "); AStr (Namespace pod);
                                AStr (PodName pod)];
                             GoWatcher],
                     Return None)
                | Some ErrorSignal =>
                    (evs, Return (Wrap (errorAt e ≫= snd) "forward ports"))
                | Some Timer =>
                    (evs, Return (Some (Errorf "Timeout waiting for port forwarding to start" [])))
                | None => (evs, Block)
                end
            end
        end
    end.

(** *** The watcher member *)

Definition stopPortForwarding (name : string) : list event :=
  [LogExecuteHooks "stop:portForwarding" name None; Kill;
   LogDone "Stopped port forwarding"].

(** One pass of the retry loop: what the call of [startForwarding]
    meets, and when the context is cancelled during the wait that
    follows a failure. *)
Record retry := {
  attemptEnv : env;
  waitCancelledAt : option Z;
  waitPick : nat
}.

Inductive status :=
| Watching     (* blocked in the first select *)
| Retrying     (* in the retry loop: the script is used up *)
| Finished     (* the member has returned nil *)
| Stuck.       (* blocked in a select no arm of which ever fires *)

Fixpoint retryLoop (name : string) (portMappings : list PortMapping)
         (script : list retry) : list event * status :=
  match script with
  | [] => ([], Retrying)
  | r :: script' =>
      match startForwarding (attemptEnv r) name portMappings with
      | (evs, Block) => (evs, Stuck)
      | (evs, Return None) => (evs, Finished)
      | (evs, Return (Some err)) =>
          let evs :=
            evs ++ [LogExecuteHooks "restart:portForwarding" name (Some err);
                    LogErrorf "Error restarting port-forwarding: %v" [AErr err];
                    LogErrorf "Will try again in 15 seconds" []] in
          match select (waitPick r)
                  [(Timer, Some (15 * Go.Second)); (CtxDone, waitCancelledAt r)] with
          | Some CtxDone => (evs ++ stopPortForwarding name, Finished)
          | Some _ =>
              let '(tr, st) := retryLoop name portMappings script' in
              (evs ++ Waited (15 * Go.Second) :: tr, st)
          | None => (evs, Stuck)
          end
      end
  end.

Definition watcher (cancelled : option Z) (failed : option (Z * option error))
           (choice : nat) (name : string) (portMappings : list PortMapping)
           (script : list retry) : list event * status :=
  match select choice [(CtxDone, cancelled); (ErrorSignal, fst <$> failed)] with
  | None => ([], Watching)
  | Some CtxDone => (Close :: stopPortForwarding name, Finished)
  | Some _ =>
      match failed ≫= snd with
      | Some err =>
          let '(tr, st) := retryLoop name portMappings script in
          ([LogErrorf "Portforwarding restarting, because: %v" [AErr err];
            PrintPodError; Close;
            LogExecuteHooks "restart:portForwarding" name (Some err)] ++ tr, st)
      | None => ([], Finished)
      end
  end.

(** *** Vocabulary of the properties *)

(** The arm [a] fires at [t], strictly before every other arm. *)
Definition later (t : Z) (x : arm * option Z) : Prop :=
  match snd x with Some u => t < u | None => True end.

Definition firesFirst (a : arm) (t : Z) (arms : list (arm * option Z)) : Prop :=
  exists l1 l2, arms = l1 ++ (a, Some t) :: l2 /\ Forall (later t) l1 /\ Forall (later t) l2.

(** The arms of the select in [startForwarding]. *)
Definition race (e : env) : list (arm * option Z) :=
  [(CtxDone, cancelledAt e); (Ready, readyAt e);
   (ErrorSignal, fst <$> errorAt e); (Timer, Some (20 * Go.Second))].

(** The call reaches the select: the context is live, a pod is selected,
    every mapping has its local port and the forwarder is created. *)
Definition reachesRace (e : env) (pod : Pod) (portMappings : list PortMapping) : Prop :=
  isDone e = false /\ selected e = inr (Some pod)
  /\ Forall (fun value => is_Some (LocalPort value)) portMappings
  /\ created e = None.

(** The port pair and the address of a mapping, in the words of the
    specification: the remote port defaults to the local port and the
    address to loopback. *)
Definition pairOf (value : PortMapping) : string :=
  match LocalPort value with
  | Some lp => Go.Itoa lp +:+ ":" +:+ Go.Itoa (default lp (RemotePort value))
  | None => ""
  end.

Definition addressOf (value : PortMapping) : string :=
  if String.eqb (BindAddress value) "" then "localhost" else BindAddress value.

Definition warningsOf (open : Z -> bool) (portMappings : list PortMapping) : list event :=
  flat_map
    (fun value =>
       match LocalPort value with
       | Some lp =>
           if open lp then []
           else [LogWarnf "Seems like port %d is already in use. Is another application using that port?"
                          [AInt lp]]
       | None => []
       end) portMappings.

(** What [startForwarding] has done when it enters the select. *)
Definition established (e : env) (pod : Pod) (portMappings : list PortMapping)
  : list event :=
  warningsOf (portOpen e) portMappings
  ++ [NewPortForwarder pod (map pairOf portMappings) (map addressOf portMappings);
      GoForwardPorts].

Definition isRestartLog (ev : event) : bool :=
  match ev with
  | LogErrorf format _ => String.eqb format "Portforwarding restarting, because: %v"
  | _ => false
  end.

(** One pass of the retry loop that failed with [err] and waited. *)
Definition failedPass (name : string) (portMappings : list PortMapping)
           (r : retry) (err : error) : list event :=
  fst (startForwarding (attemptEnv r) name portMappings)
  ++ [LogExecuteHooks "restart:portForwarding" name (Some err);
      LogErrorf "Error restarting port-forwarding: %v" [AErr err];
      LogErrorf "Will try again in 15 seconds" []].

Definition waitRace (r : retry) : list (arm * option Z) :=
  [(Timer, Some (15 * Go.Second)); (CtxDone, waitCancelledAt r)].

(** The shape of a run of the retry loop: passes that fail and wait
    fifteen seconds, then, unless the script is used up, one pass that
    ends the loop, by success or by cancellation during the wait. *)
Definition retryShape (name : string) (portMappings : list PortMapping)
           (script : list retry) (run : list event * status) : Prop :=
  exists (errs : list error) (final : list event),
    fst run
    = concat (zip_with (fun r err => failedPass name portMappings r err
                                      ++ [Waited (15 * Go.Second)])
                       script errs) ++ final
    /\ (length errs <= length script)%nat
    /\ Forall2 (fun r err =>
                  snd (startForwarding (attemptEnv r) name portMappings)
                  = Return (Some err)
                  /\ select (waitPick r) (waitRace r) = Some Timer)
               (take (length errs) script) errs
    /\ match snd run with
       | Retrying => final = [] /\ length errs = length script
       | Finished =>
           exists r, script !! length errs = Some r
             /\ ((snd (startForwarding (attemptEnv r) name portMappings) = Return None
                  /\ final = fst (startForwarding (attemptEnv r) name portMappings))
                 \/ (exists err,
                       snd (startForwarding (attemptEnv r) name portMappings)
                       = Return (Some err)
                       /\ select (waitPick r) (waitRace r) = Some CtxDone
                       /\ final = failedPass name portMappings r err
                                   ++ stopPortForwarding name))
       | _ => False
       end.

(** *** StartPortForwarding

    The members it hands to [parent.Go], in order; it returns [nil]
    once each of them has closed its [initDone] channel. *)
Inductive member :=
| ForwardMember (name : string) (portMappings : list PortMapping)
| ReverseMember (name arch : string) (portMappings : list PortMapping)
                (container : string).

Definition StartPortForwarding (configSet : bool) (devPod : DevPod)
  : error + list member :=
  if negb configSet then inl (Errorf "DevSpace config is not set" [])
  else
    inr ((if (0 <? length (Forward devPod))%nat
          then [ForwardMember (Name devPod) (Forward devPod)] else [])
         ++ flat_map
              (fun devContainer =>
                 if (0 <? length (PortMappingsReverse (Inline devPod)))%nat
                 then [ReverseMember (Name devPod) (Arch devContainer)
                         (PortMappingsReverse devContainer) (Container devContainer)]
                 else [])
              (EachDevContainer devPod)).

(** What the specification asks of [StartPortForwarding]: the forward
    set once when forward mappings are configured, and one reverse set
    for each dev container that has reverse mappings, with the mappings
    and the architecture tag of that container. *)
Definition specMembers (devPod : DevPod) : list member :=
  (match Forward devPod with
   | [] => []
   | _ => [ForwardMember (Name devPod) (Forward devPod)]
   end)
  ++ flat_map
       (fun devContainer =>
          match PortMappingsReverse devContainer with
          | [] => []
          | reverse =>
              [ReverseMember (Name devPod) (Arch devContainer) reverse
                 (Container devContainer)]
          end)
       (EachDevContainer devPod).

(** Inputs of the examples. *)
Definition examplePod : Pod := {| Namespace := "dev"; PodName := "api-0" |}.

Definition port8080 : PortMapping :=
  {| LocalPort := Some 8080; RemotePort := None; BindAddress := "" |}.

Definition port9000 : PortMapping :=
  {| LocalPort := Some 9000; RemotePort := None; BindAddress := "" |}.

Definition noPort : PortMapping :=
  {| LocalPort := None; RemotePort := Some 80; BindAddress := "" |}.

(** The forwarder is ready after one second; port 8080 looks taken. *)
Definition readyEnv : env :=
  {| isDone := false; selected := inr (Some examplePod);
     portOpen := fun _ => false; created := None;
     cancelledAt := None; readyAt := Some Go.Second; errorAt := None; pick := 0 |}.

Definition cancelledEnv : env :=
  {| isDone := false; selected := inr (Some examplePod);
     portOpen := fun _ => true; created := None;
     cancelledAt := Some 5; readyAt := Some Go.Second; errorAt := None; pick := 0 |}.

Definition brokenPipe : error := Errorf "broken pipe" [].

Definition failingEnv : env :=
  {| isDone := false; selected := inr (Some examplePod);
     portOpen := fun _ => true; created := None;
     cancelledAt := None; readyAt := None;
     errorAt := Some (7, Some brokenPipe); pick := 0 |}.

Definition silentEnv : env :=
  {| isDone := false; selected := inr (Some examplePod);
     portOpen := fun _ => true; created := None;
     cancelledAt := None; readyAt := Some (21 * Go.Second); errorAt := None; pick := 0 |}.

(** A retry script: one pass that fails, then one that succeeds. *)
Definition exampleRetries : list retry :=
  [{| attemptEnv := failingEnv; waitCancelledAt := None; waitPick := 0 |};
   {| attemptEnv := readyEnv; waitCancelledAt := None; waitPick := 0 |}].

(** A dev pod with two dev containers, of which only "backend" has
    reverse mappings; the pod itself has none inline. *)
Definition twoContainers : DevPod :=
  {| Name := "api"; Forward := [];
     Inline := {| Container := ""; Arch := ""; PortMappingsReverse := [] |};
     Containers :=
       [{| Container := "backend"; Arch := "arm64"; PortMappingsReverse := [port9000] |};
        {| Container := "frontend"; Arch := "amd64"; PortMappingsReverse := [] |}] |}.

(** A dev pod without [Containers]: its one dev container is the inline
    one. *)
Definition oneContainer : DevPod :=
  {| Name := "api"; Forward := [port8080];
     Inline := {| Container := "main"; Arch := "arm64"; PortMappingsReverse := [port9000] |};
     Containers := [] |}.


(** *** The wrappers that run the hooks *)

(** An event of a wrapper: a call of [hook.ExecuteHooks] with the error
    in its payload, an event of [startForwarding], or the call of
    [startReversePortForwarding], which is in another file. *)
Inductive hookEvent :=
| ExecuteHooks (event name : string) (failure : option error)
| Forwarding (ev : event)
| StartReverse (name arch : string) (portMappings : list PortMapping).

(** [startHook] and [errorHook] are what the two calls of
    [hook.ExecuteHooks] return. *)
Definition startPortForwardingWithHooks (startHook errorHook : option error)
           (e : env) (name : string) (portMappings : list PortMapping)
  : list hookEvent * outcome :=
  match startHook with
  | Some pluginErr =>
      ([ExecuteHooks "start:portForwarding" name None], Return (Some pluginErr))
  | None =>
      (* start port forwarding *)
      let '(evs, out) := startForwarding e name portMappings in
      let tr := ExecuteHooks "start:portForwarding" name None :: map Forwarding evs in
      match out with
      | Return (Some err) =>
          (tr ++ [ExecuteHooks "error:portForwarding" name (Some err)],
           match errorHook with
           | Some pluginErr => Return (Some pluginErr)
           | None => Return (Some err)
           end)
      | _ => (tr, out)
      end
  end.

(** [started] is what [startReversePortForwarding] returns. *)
Definition startReversePortForwardingWithHooks (startHook errorHook started : option error)
           (name arch : string) (portMappings : list PortMapping)
  : list hookEvent * option error :=
  match startHook with
  | Some pluginErr =>
      ([ExecuteHooks "start:reversePortForwarding" name None], Some pluginErr)
  | None =>
      (* start reverse port forwarding *)
      let tr := [ExecuteHooks "start:reversePortForwarding" name None;
                 StartReverse name arch portMappings] in
      match started with
      | Some err =>
          (tr ++ [ExecuteHooks "error:reversePortForwarding" name (Some err)],
           match errorHook with
           | Some pluginErr => Some pluginErr
           | None => Some err
           end)
      | None => (tr, None)
      end
  end.

(** *** More vocabulary *)

(** The events that [startForwarding] itself can leave in a trace. *)
Definition ofForwarding (ev : event) : bool :=
  match ev with
  | LogWarnf _ _ | LogDonef _ _ | NewPortForwarder _ _ _
  | GoForwardPorts | GoWatcher => true
  | _ => false
  end.

Definition isRestartHook (ev : event) : bool :=
  match ev with
  | LogExecuteHooks event _ _ => String.eqb event "restart:portForwarding"
  | _ => false
  end.

Definition isRetryError (ev : event) : bool :=
  match ev with
  | LogErrorf format _ => String.eqb format "Error restarting port-forwarding: %v"
  | _ => false
  end.

Definition isStop (ev : event) : bool :=
  match ev with
  | Kill => true
  | LogExecuteHooks event _ _ => String.eqb event "stop:portForwarding"
  | LogDone _ => true
  | _ => false
  end.

(** A retry script whose first pass fails and during whose wait the
    context is cancelled, and a pass that finds no pod. *)
Definition cancelledRetries : list retry :=
  [{| attemptEnv := failingEnv; waitCancelledAt := Some Go.Second; waitPick := 0 |}].

Definition noPodEnv : env :=
  {| isDone := false; selected := inr None;
     portOpen := fun _ => true; created := None;
     cancelledAt := None; readyAt := None; errorAt := None; pick := 0 |}.

End PortForwarding.

(** * Properties *)

(** ** The prefix logger *)

Module LogFacts.

Import Log.

(** *** The colour index *)

Lemma wrap_range sz x : Go.minInt sz <= Go.wrap sz x <= Go.maxInt sz.
Proof.
  unfold Go.wrap, Go.minInt, Go.maxInt.
  destruct sz; simpl Go.bits;
    match goal with
    | |- context [(?a + ?h) mod ?n] =>
        pose proof (Z.mod_pos_bound (a + h) n ltac:(lia))
    end; lia.
Qed.

Lemma wrap_small sz x :
  Go.minInt sz <= x <= Go.maxInt sz -> Go.wrap sz x = x.
Proof.
  unfold Go.wrap, Go.minInt, Go.maxInt.
  destruct sz; simpl Go.bits; intros H; rewrite Z.mod_small; lia.
Qed.

Lemma wrap_neg_minInt sz : Go.wrap sz (Go.minInt sz * -1) = Go.minInt sz.
Proof. destruct sz; reflexivity. Qed.

Lemma rem_minInt sz : Go.rem (Go.minInt sz) 6 = -2.
Proof. destruct sz; reflexivity. Qed.

Section Index.

Variable sz : Go.intSize.
Variable StringToNumber : string -> Z.

Lemma hashNumber_minInt prefix :
  Go.toInt sz (StringToNumber prefix) = Go.minInt sz ->
  hashNumber sz StringToNumber prefix = Go.minInt sz.
Proof.
  intros H. unfold hashNumber. rewrite H.
  replace (Go.minInt sz <? 0) with true by (destruct sz; reflexivity).
  apply wrap_neg_minInt.
Qed.

Lemma hashNumber_nonneg prefix :
  Go.toInt sz (StringToNumber prefix) <> Go.minInt sz ->
  0 <= hashNumber sz StringToNumber prefix.
Proof.
  intros H. unfold hashNumber.
  pose proof (wrap_range sz (StringToNumber prefix)) as R.
  unfold Go.toInt in *.
  destruct (Z.ltb_spec (Go.wrap sz (StringToNumber prefix)) 0) as [Hneg|]; [|lia].
  unfold Go.mul. rewrite wrap_small; unfold Go.maxInt, Go.minInt in *; lia.
Qed.

(** The index is within the palette exactly when the hash, converted
    to [int], is not the least [int]: that one value is its own
    negation, and its remainder is negative. *)
Lemma colorIndex_in_bounds_iff prefix :
  0 <= colorIndex sz StringToNumber prefix < Z.of_nat (length Colors)
  <-> Go.toInt sz (StringToNumber prefix) <> Go.minInt sz.
Proof.
  unfold colorIndex, Go.rem. simpl (Z.of_nat _). split.
  - intros Hb Hmin. rewrite (hashNumber_minInt _ Hmin) in Hb.
    pose proof (rem_minInt sz) as E. unfold Go.rem in E. lia.
  - intros Hne. apply hashNumber_nonneg in Hne.
    apply Z.rem_bound_pos; lia.
Qed.

Lemma colorIndex_minInt prefix :
  Go.toInt sz (StringToNumber prefix) = Go.minInt sz ->
  colorIndex sz StringToNumber prefix = -2.
Proof.
  intros H. unfold colorIndex. rewrite (hashNumber_minInt _ H).
  apply rem_minInt.
Qed.

Lemma index_Colors_Some i :
  0 <= i < Z.of_nat (length Colors) -> is_Some (Go.index Colors i).
Proof.
  intros H. unfold Go.index.
  replace ((0 <=? i) && (i <? Z.of_nat (length Colors))) with true
    by (symmetry; apply andb_true_iff; split; [apply Z.leb_le|apply Z.ltb_lt]; lia).
  apply lookup_lt_is_Some. simpl in *. lia.
Qed.

Lemma NewDefaultPrefixLogger_Some_iff prefix base :
  is_Some (NewDefaultPrefixLogger sz StringToNumber prefix base)
  <-> Go.toInt sz (StringToNumber prefix) <> Go.minInt sz.
Proof.
  unfold NewDefaultPrefixLogger. split.
  - intros [l Hl] Hmin. rewrite (colorIndex_minInt _ Hmin) in Hl. discriminate.
  - intros Hne. apply colorIndex_in_bounds_iff in Hne.
    destruct (index_Colors_Some _ Hne) as [c ->]. eauto.
Qed.

(** Whether the constructor panics depends on the prefix alone. *)
Lemma NewDefaultPrefixLogger_base prefix base base' :
  is_Some (NewDefaultPrefixLogger sz StringToNumber prefix base) ->
  is_Some (NewDefaultPrefixLogger sz StringToNumber prefix base').
Proof. rewrite !NewDefaultPrefixLogger_Some_iff. auto. Qed.

(** The same prefix always gets the same colour. *)
Lemma NewDefaultPrefixLogger_deterministic prefix base base' l l' :
  NewDefaultPrefixLogger sz StringToNumber prefix base = Some l ->
  NewDefaultPrefixLogger sz StringToNumber prefix base' = Some l' ->
  color l = color l' /\ Go.index Colors (colorIndex sz StringToNumber prefix) = Some (color l).
Proof.
  unfold NewDefaultPrefixLogger.
  destruct (Go.index Colors _) as [c|]; [|discriminate].
  intros [= <-] [= <-]. auto.
Qed.

End Index.

(** A 32-bit unsigned hash never converts to the least 64-bit [int]. *)
Lemma NewDefaultPrefixLogger_total_int64 StringToNumber prefix base :
  0 <= StringToNumber prefix < 2 ^ 32 ->
  is_Some (NewDefaultPrefixLogger Go.Int64 StringToNumber prefix base).
Proof.
  intros H. apply NewDefaultPrefixLogger_Some_iff.
  unfold Go.toInt. rewrite wrap_small; unfold Go.minInt, Go.maxInt; simpl Go.bits; lia.
Qed.

Lemma fnv32a_range s : 0 <= fnv32a s < 2 ^ 32.
Proof.
  unfold fnv32a. generalize (Go.bytes s). intros l.
  assert (G : forall h, 0 <= h < 2 ^ 32 ->
            0 <= fold_left (fun h b => (Z.lxor h b * 16777619) mod 2 ^ 32) l h < 2 ^ 32).
  { induction l as [|b l IH]; intros h Hh; simpl; [exact Hh|].
    apply IH. apply Z.mod_pos_bound. lia. }
  apply G. lia.
Qed.

(** C10: on a build whose [int] has 32 bits the prefix "qqk42v", whose
    32-bit FNV-1a hash is 0x80000000, converts to the least [int]; its
    negation overflows back to itself, the index is -2 and the
    constructor panics on [Colors[-2]]. *)
Theorem NewDefaultPrefixLogger_panics_on_least_int base :
  fnv32a "qqk42v" = 2147483648
  /\ hashNumber Go.Int32 fnv32a "qqk42v" = -2147483648
  /\ colorIndex Go.Int32 fnv32a "qqk42v" = -2
  /\ NewDefaultPrefixLogger Go.Int32 fnv32a "qqk42v" base = None.
Proof. repeat split; vm_compute; reflexivity. Qed.

(** *** Fatal and Fatalf *)

Section Fatal.

Variable timestamps : string.
Variable now : Z * Z * Z.
Variable formatInt : Z -> string.
Variable ansiColor : string -> string -> string.

Local Abbreviation writeMessage := (Log.writeMessage timestamps now formatInt ansiColor).

Lemma GetLevel_neverExits : neverExits GetLevel.
Proof.
  intros w code. unfold GetLevel, locked, bind, Lock, Unlock, setMutex, this, ret.
  destruct (m (self w)); simpl; discriminate.
Qed.

Lemma writeMessage_neverExits lvl message : neverExits (writeMessage lvl message).
Proof.
  intros w code. unfold Log.writeMessage, bind, this, ret, baseWriteString.
  destruct (levelNum lvl <=? levelNum (level (self w))); [|simpl; discriminate].
  destruct (String.eqb timestamps "true").
  - destruct (negb (String.eqb (color (self w)) "")); simpl; discriminate.
  - pose proof (GetLevel_neverExits w) as G.
    destruct (GetLevel w) as [w' [l| |]]; simpl in *.
    + destruct (Level_eqb l DebugLevel), (negb (String.eqb (color (self w)) ""));
        simpl; discriminate.
    + intros [= <-]. exact (G _ eq_refl).
    + discriminate.
Qed.

Lemma locked_neverExits {A} (body : M A) : neverExits body -> neverExits (locked body).
Proof.
  intros Hb w code. unfold locked, bind, Lock, Unlock, setMutex, ret.
  destruct (m (self w)); simpl; [discriminate|].
  match goal with |- context [body ?w1] => pose proof (Hb w1) as G; destruct (body w1) as [w' [a| |]] end;
    simpl in *; try discriminate.
  intros [= <-]. exact (G _ eq_refl).
Qed.

Lemma leveled_neverExit msg :
  Forall neverExits (leveled timestamps now formatInt ansiColor msg).
Proof.
  unfold leveled. repeat constructor;
    apply locked_neverExits, writeMessage_neverExits.
Qed.

(** With timestamps switched on the message is composed without a
    second look at the level: one line goes to the base logger when
    the level admits it, none otherwise, and the call returns. *)
Lemma writeMessage_stamped lvl message w :
  timestamps = "true"%string ->
  exists text,
    writeMessage lvl message w
    = ({| self := self w;
          written := written w ++
            (if levelNum lvl <=? levelNum (level (self w))
             then [BaseWriteString lvl text] else []) |}, Returned tt).
Proof.
  intros ->. unfold Log.writeMessage, bind, this, ret, baseWriteString.
  destruct (levelNum lvl <=? levelNum (level (self w))).
  - simpl. destruct (negb (String.eqb (color (self w)) "")); eauto.
  - exists ""%string. rewrite app_nil_r. destruct w; reflexivity.
Qed.

Lemma writeMessage_below lvl message w :
  levelNum (level (self w)) < levelNum lvl ->
  writeMessage lvl message w = (w, Returned tt).
Proof.
  intros H. unfold Log.writeMessage, bind, this, ret.
  apply Z.leb_gt in H. rewrite H. reflexivity.
Qed.

(** The slip in [writeMessage]: with timestamps off it asks
    [s.GetLevel()] for the level, which locks the mutex its caller
    holds already. *)
Lemma writeMessage_blocks lvl message w :
  timestamps <> "true"%string ->
  levelNum lvl <= levelNum (level (self w)) ->
  m (self w) = true ->
  snd (writeMessage lvl message w) = Blocked.
Proof.
  intros Hts Hl Hm. unfold Log.writeMessage, bind, this, ret.
  apply Z.leb_le in Hl. rewrite Hl.
  apply String.eqb_neq in Hts. rewrite Hts.
  unfold GetLevel, locked, bind, Lock. rewrite Hm. reflexivity.
Qed.

Lemma locked_then_exit lvl message w w' :
  m (self w) = false ->
  writeMessage lvl message
    {| self := {| base := base (self w); level := level (self w);
                  prefix := prefix (self w); color := color (self w); m := true |};
       written := written w |} = (w', Returned tt) ->
  locked (writeMessage lvl message ;;; osExit 1) w = (w', Exited 1).
Proof.
  intros Hm Hw. unfold locked, bind, Lock, setMutex, osExit.
  rewrite Hm. simpl. rewrite Hw. reflexivity.
Qed.

Lemma fatal_call s message :
  m s = false ->
  timestamps = "true"%string \/ level s = PanicLevel ->
  exists text,
    call s (locked (writeMessage FatalLevel message ;;; osExit 1))
    = ({| self := {| base := base s; level := level s; prefix := prefix s;
                     color := color s; m := true |};
          written := if 1 <=? levelNum (level s)
                     then [BaseWriteString FatalLevel text] else [] |},
       Exited 1).
Proof.
  intros Hm Hc. unfold call.
  destruct (decide (timestamps = "true"%string)) as [Hts|Hts].
  - match goal with |- context [locked _ ?w] => set (w0 := w) end.
    destruct (writeMessage_stamped FatalLevel message
                {| self := {| base := base s; level := level s; prefix := prefix s;
                              color := color s; m := true |}; written := [] |} Hts)
      as [text Ht].
    exists text. erewrite locked_then_exit; [reflexivity|exact Hm|].
    subst w0. simpl. rewrite Ht. reflexivity.
  - destruct Hc as [Hc|Hc]; [contradiction|].
    exists ""%string. erewrite locked_then_exit; [|exact Hm|].
    2:{ simpl. apply writeMessage_below. simpl. rewrite Hc. simpl. lia. }
    rewrite Hc. reflexivity.
Qed.

End Fatal.

(** C8 (as amended): [Fatal] and [Fatalf] end the process themselves.
    When timestamps are on, or the level of the logger is below Fatal,
    the call writes the line the level admits and then leaves through
    [os.Exit(1)]; the other levelled calls never end the process. *)
Theorem Fatal_exits_in_the_logger timestamps now formatInt ansiColor s msg :
  m s = false ->
  timestamps = "true"%string \/ level s = PanicLevel ->
  snd (call s (Fatal timestamps now formatInt ansiColor msg)) = Exited 1
  /\ snd (call s (Fatalf timestamps now formatInt ansiColor msg)) = Exited 1
  /\ (exists text,
        written (fst (call s (Fatal timestamps now formatInt ansiColor msg)))
        = if 1 <=? levelNum (level s) then [BaseWriteString FatalLevel text] else [])
  /\ Forall neverExits (leveled timestamps now formatInt ansiColor msg).
Proof.
  intros Hm Hc. unfold Fatal, Fatalf.
  destruct (fatal_call timestamps now formatInt ansiColor s ("Fatal: " +:+ msg) Hm Hc)
    as [t1 E1].
  destruct (fatal_call timestamps now formatInt ansiColor s
              ("Fatal: " +:+ msg +:+ Go.newline) Hm Hc) as [t2 E2].
  rewrite E1, E2. simpl. repeat split; eauto using leveled_neverExit.
Qed.

Lemma Fatal_exits_in_the_logger_witness :
  snd (call exampleLogger (Fatal "true" exampleNow Go.Itoa plain "boom")) = Exited 1
  /\ snd (call exampleLogger (Fatalf "true" exampleNow Go.Itoa plain "boom")) = Exited 1
  /\ (exists text,
        written (fst (call exampleLogger (Fatal "true" exampleNow Go.Itoa plain "boom")))
        = if 1 <=? levelNum (level exampleLogger)
          then [BaseWriteString FatalLevel text] else [])
  /\ Forall neverExits (leveled "true" exampleNow Go.Itoa plain "boom").
Proof.
  apply (Fatal_exits_in_the_logger "true" exampleNow Go.Itoa plain exampleLogger "boom").
  - reflexivity.
  - left. reflexivity.
Defined.

(** C8 (as stated) fails: a call of [Fatal] on the prefix logger ends
    the process inside the logger, after writing its line. *)
Lemma Fatal_exit_counterexample :
  call exampleLogger (Fatal "true" exampleNow Go.Itoa plain "boom")
  = ({| self := {| base := {| GetLevel_base := InfoLevel |}; level := InfoLevel;
                   prefix := "api "; color := "blue"; m := true |};
        written := [BaseWriteString FatalLevel "12:30:5 api Fatal: boom"] |}, Exited 1)
  /\ ~ neverExits (Fatal "true" exampleNow Go.Itoa plain "boom").
Proof.
  split; [reflexivity|].
  intros H. apply (H {| self := exampleLogger; written := [] |} 1). reflexivity.
Qed.


(** *** The levelled calls *)

Section Calls.

Variable timestamps : string.
Variable now : Z * Z * Z.
Variable formatInt : Z -> string.
Variable ansiColor : string -> string -> string.

Local Abbreviation writeMessage := (Log.writeMessage timestamps now formatInt ansiColor).

Lemma unlock_held s evs :
  m s = false ->
  Unlock {| self := held s; written := evs |}
  = ({| self := s; written := evs |}, Returned tt).
Proof. intros H. destruct s; simpl in *; subst. reflexivity. Qed.

Lemma atLevel_same s : atLevel (level s) s = s.
Proof. destruct s; reflexivity. Qed.

Lemma locked_run {A} (body : M A) s :
  m s = false ->
  call s (locked body)
  = match body {| self := held s; written := [] |} with
    | (w, Returned a) => (fun r => (fst r, Returned a)) (Unlock w)
    | (w, Exited code) => (w, Exited code)
    | (w, Blocked) => (w, Blocked)
    end.
Proof.
  intros H. unfold call, locked, bind, Lock, setMutex, ret. simpl. rewrite H. simpl.
  fold (held s). destruct (body _) as [w [a| |]]; reflexivity.
Qed.

Lemma writeMessage_held_blocks lvl body s :
  timestamps <> "true"%string -> levelNum lvl <= levelNum (level s) ->
  writeMessage lvl body {| self := held s; written := [] |}
  = ({| self := held s; written := [] |}, Blocked).
Proof.
  intros Hts Hl. unfold Log.writeMessage, bind, this, ret. simpl.
  apply Z.leb_le in Hl. rewrite Hl.
  apply String.eqb_neq in Hts. rewrite Hts. reflexivity.
Qed.

Lemma writeMessage_held_below lvl body s :
  levelNum (level s) < levelNum lvl ->
  writeMessage lvl body {| self := held s; written := [] |}
  = ({| self := held s; written := [] |}, Returned tt).
Proof. intros H. apply writeMessage_below. exact H. Qed.

End Calls.

Lemma writeMessage_held_stamped now formatInt ansiColor lvl body s :
  levelNum lvl <= levelNum (level s) ->
  Log.writeMessage "true" now formatInt ansiColor lvl body
    {| self := held s; written := [] |}
  = ({| self := held s;
        written := [BaseWriteString lvl (stamped now formatInt ansiColor s body)] |},
     Returned tt).
Proof.
  intros Hl. unfold Log.writeMessage, bind, this, ret, baseWriteString, stamped. simpl.
  apply Z.leb_le in Hl. rewrite Hl.
  destruct (negb (String.eqb (color s) "")); reflexivity.
Qed.

(** X1: With timestamps off, every levelled call whose level the logger
    admits blocks for ever on the mutex it took itself, and nothing
    reaches the base logger: [writeMessage] asks [s.GetLevel()], which
    locks [s.m] again. *)
Theorem admitted_call_blocks timestamps now formatInt ansiColor s msg :
  timestamps <> "true"%string -> m s = false ->
  Forall (fun x =>
            levelNum (fst (fst x)) <= levelNum (level s) ->
            call s (snd x) = ({| self := held s; written := [] |}, Blocked))
         (calls timestamps now formatInt ansiColor msg
          ++ fatalCalls timestamps now formatInt ansiColor msg).
Proof.
  intros Hts Hm. unfold calls, fatalCalls.
  repeat constructor; cbn [fst snd]; intros Hl.
  all: unfold Debug, Debugf, Info, Infof, Warn, Warnf, Error, Errorf, Done, Donef,
         Fatal, Fatalf; rewrite (locked_run _ s Hm).
  all: try (rewrite (writeMessage_held_blocks timestamps now formatInt ansiColor _ _ s Hts Hl);
            reflexivity).
  all: unfold bind;
    rewrite (writeMessage_held_blocks timestamps now formatInt ansiColor _ _ s Hts Hl);
    reflexivity.
Qed.

Lemma admitted_call_blocks_witness :
  Forall (fun x =>
            levelNum (fst (fst x)) <= levelNum (level exampleLogger) ->
            call exampleLogger (snd x)
            = ({| self := held exampleLogger; written := [] |}, Blocked))
         (calls "false" exampleNow Go.Itoa plain "boom"
          ++ fatalCalls "false" exampleNow Go.Itoa plain "boom").
Proof.
  apply (admitted_call_blocks "false" exampleNow Go.Itoa plain exampleLogger "boom").
  - discriminate.
  - reflexivity.
Defined.

Lemma calls_above_level timestamps now formatInt ansiColor s msg :
  m s = false ->
  Forall (fun x =>
            levelNum (level s) < levelNum (fst (fst x)) ->
            call s (snd x) = ({| self := s; written := [] |}, Returned tt))
         (calls timestamps now formatInt ansiColor msg).
Proof.
  intros Hm. unfold calls. repeat constructor; cbn [fst snd]; intros Hl.
  all: unfold Debug, Debugf, Info, Infof, Warn, Warnf, Error, Errorf, Done, Donef;
    rewrite (locked_run _ s Hm),
      (writeMessage_held_below timestamps now formatInt ansiColor _ _ s Hl);
    rewrite (unlock_held s [] Hm); reflexivity.
Qed.

(** X2: A call above the level of the logger writes nothing, returns and
    leaves the mutex free, whatever the timestamps setting. *)
Theorem call_above_level_is_dropped timestamps now formatInt ansiColor s msg :
  m s = false ->
  Forall (fun x =>
            levelNum (level s) < levelNum (fst (fst x)) ->
            call s (snd x) = ({| self := s; written := [] |}, Returned tt))
         (calls timestamps now formatInt ansiColor msg).
Proof.
  intros Hm. apply calls_above_level. exact Hm.
Qed.

Lemma call_above_level_is_dropped_witness :
  Forall (fun x =>
            levelNum (level exampleLogger) < levelNum (fst (fst x)) ->
            call exampleLogger (snd x)
            = ({| self := exampleLogger; written := [] |}, Returned tt))
         (calls "false" exampleNow Go.Itoa plain "boom").
Proof.
  apply (call_above_level_is_dropped "false" exampleNow Go.Itoa plain exampleLogger "boom").
  reflexivity.
Defined.

(** X3: With timestamps on, a call the level admits writes exactly one line
    to the base logger, at its own level: the clock, the prefix and the
    message with its marker ("Warning: ", "Error: ") and, for the
    formatted variants, the newline; it returns with the mutex free. *)
Theorem admitted_call_writes_one_line now formatInt ansiColor s msg :
  m s = false ->
  Forall (fun x =>
            levelNum (fst (fst x)) <= levelNum (level s) ->
            call s (snd x)
            = ({| self := s;
                  written := [BaseWriteString (fst (fst x))
                                (stamped now formatInt ansiColor s (snd (fst x)))] |},
               Returned tt))
         (calls "true" now formatInt ansiColor msg).
Proof.
  intros Hm. unfold calls. repeat constructor; cbn [fst snd]; intros Hl.
  all: unfold Debug, Debugf, Info, Infof, Warn, Warnf, Error, Errorf, Done, Donef;
    rewrite (locked_run _ s Hm),
      (writeMessage_held_stamped now formatInt ansiColor _ _ s Hl);
    rewrite (unlock_held s _ Hm); reflexivity.
Qed.

Lemma admitted_call_writes_one_line_witness :
  Forall (fun x =>
            levelNum (fst (fst x)) <= levelNum (level exampleLogger) ->
            call exampleLogger (snd x)
            = ({| self := exampleLogger;
                  written := [BaseWriteString (fst (fst x))
                                (stamped exampleNow Go.Itoa plain exampleLogger
                                   (snd (fst x)))] |},
               Returned tt))
         (calls "true" exampleNow Go.Itoa plain "boom").
Proof.
  apply (admitted_call_writes_one_line exampleNow Go.Itoa plain exampleLogger "boom").
  reflexivity.
Defined.


(** *** SetLevel, GetLevel and WriteString *)

(** X4: [GetLevel] after [SetLevel] answers the level that was set, and from
    then on calls above that level are dropped. *)
Theorem SetLevel_then_GetLevel timestamps now formatInt ansiColor s lvl msg :
  m s = false ->
  call s (SetLevel lvl ;;; GetLevel)
  = ({| self := atLevel lvl s; written := [] |}, Returned lvl)
  /\ Forall (fun x =>
              levelNum lvl < levelNum (fst (fst x)) ->
              call s (SetLevel lvl ;;; snd x)
              = ({| self := atLevel lvl s; written := [] |}, Returned tt))
           (calls timestamps now formatInt ansiColor msg).
Proof.
  intros Hm.
  assert (Hset : SetLevel lvl {| self := s; written := [] |}
                 = ({| self := atLevel lvl s; written := [] |}, Returned tt)).
  { destruct s as [b l p c held]. simpl in Hm. subst held. reflexivity. }
  split.
  - unfold call, bind. rewrite Hset.
    destruct s as [b l p c held]. simpl in Hm. subst held. reflexivity.
  - pose proof (calls_above_level timestamps now formatInt ansiColor
                  (atLevel lvl s) msg Hm) as H.
    unfold calls in *.
    repeat match goal with
           | H : Forall _ (_ :: _) |- _ => apply Forall_cons in H as [? H]
           end.
    repeat constructor; cbn [fst snd] in *; intros Hl;
      unfold call in *; unfold bind at 1; rewrite Hset; auto.
Qed.

Lemma SetLevel_then_GetLevel_witness :
  call exampleLogger (SetLevel ErrorLevel ;;; GetLevel)
  = ({| self := atLevel ErrorLevel exampleLogger; written := [] |}, Returned ErrorLevel)
  /\ Forall (fun x =>
              levelNum ErrorLevel < levelNum (fst (fst x)) ->
              call exampleLogger (SetLevel ErrorLevel ;;; snd x)
              = ({| self := atLevel ErrorLevel exampleLogger; written := [] |},
                 Returned tt))
           (calls "false" exampleNow Go.Itoa plain "boom").
Proof.
  apply (SetLevel_then_GetLevel "false" exampleNow Go.Itoa plain exampleLogger
           ErrorLevel "boom").
  reflexivity.
Defined.

(** X5: [WriteString] hands the message to the base logger as it is, without
    clock, prefix or colour, when the level admits it, and drops it
    otherwise; it returns in both cases, for it never asks [GetLevel]. *)
Theorem WriteString_passes_message s lvl message :
  m s = false ->
  call s (WriteString lvl message)
  = ({| self := s;
        written := if levelNum lvl <=? levelNum (level s)
                   then [BaseWriteString lvl message] else [] |},
     Returned tt).
Proof.
  intros Hm. destruct s as [b l p c held]. simpl in Hm. subst held.
  unfold call, WriteString, locked, bind, Lock, Unlock, setMutex, this, ret,
    baseWriteString. simpl.
  destruct (Z.ltb_spec (levelNum l) (levelNum lvl)) as [Hlt|Hge];
    destruct (Z.leb_spec (levelNum lvl) (levelNum l)); try lia; reflexivity.
Qed.

Lemma WriteString_passes_message_witness :
  call exampleLogger (WriteString WarnLevel "boom")
  = ({| self := exampleLogger;
        written := if levelNum WarnLevel <=? levelNum (level exampleLogger)
                   then [BaseWriteString WarnLevel "boom"] else [] |},
     Returned tt).
Proof.
  apply (WriteString_passes_message exampleLogger WarnLevel "boom"). reflexivity.
Defined.

(** *** The constructor *)

(** X6: [NewDefaultPrefixLogger] panics exactly when the hash converts to the
    least [int].  Otherwise the logger has the level of its base, a free
    mutex, and the colour at index |hash| mod 6 of the palette.  On a
    64-bit build a hash below 2^32 never makes it panic. *)
Theorem NewDefaultPrefixLogger_result sz StringToNumber prefix base :
  (is_Some (NewDefaultPrefixLogger sz StringToNumber prefix base)
   <-> Go.toInt sz (StringToNumber prefix) <> Go.minInt sz)
  /\ (forall l,
        NewDefaultPrefixLogger sz StringToNumber prefix base = Some l ->
        Colors !! Z.to_nat (Z.abs (Go.toInt sz (StringToNumber prefix)) mod 6)
        = Some (color l)
        /\ level l = GetLevel_base base /\ Log.base l = base
        /\ Log.prefix l = prefix /\ m l = false)
  /\ (sz = Go.Int64 -> 0 <= StringToNumber prefix < 2 ^ 32 ->
      is_Some (NewDefaultPrefixLogger sz StringToNumber prefix base)).
Proof.
  split; [apply NewDefaultPrefixLogger_Some_iff|]. split.
  - intros l Hl.
    assert (Hne : Go.toInt sz (StringToNumber prefix) <> Go.minInt sz).
    { apply (NewDefaultPrefixLogger_Some_iff sz StringToNumber prefix base). eauto. }
    unfold NewDefaultPrefixLogger in Hl.
    destruct (Go.index Colors (colorIndex sz StringToNumber prefix)) as [c|] eqn:Hc;
      [|discriminate].
    injection Hl as <-. simpl. repeat split.
    pose proof (colorIndex_in_bounds_iff sz StringToNumber prefix) as [_ Hb].
    specialize (Hb Hne).
    unfold Go.index in Hc.
    replace ((0 <=? colorIndex sz StringToNumber prefix)
             && (colorIndex sz StringToNumber prefix <? Z.of_nat (length Colors)))
      with true in Hc
      by (symmetry; apply andb_true_iff; split; [apply Z.leb_le|apply Z.ltb_lt]; lia).
    rewrite <- Hc. f_equal. f_equal.
    unfold colorIndex, hashNumber, Go.rem, Go.mul. simpl (Z.of_nat _).
    pose proof (wrap_range sz (StringToNumber prefix)) as R. unfold Go.toInt in *.
    destruct (Z.ltb_spec (Go.wrap sz (StringToNumber prefix)) 0) as [Hneg|Hpos].
    + rewrite (wrap_small sz (Go.wrap sz (StringToNumber prefix) * -1))
        by (unfold Go.maxInt, Go.minInt in *; lia).
      rewrite Z.rem_mod_nonneg by lia. f_equal. lia.
    + rewrite Z.rem_mod_nonneg by lia. f_equal. lia.
  - intros -> Hr. apply NewDefaultPrefixLogger_total_int64. exact Hr.
Qed.

Lemma NewDefaultPrefixLogger_result_witness :
  is_Some (NewDefaultPrefixLogger Go.Int64 fnv32a "api" exampleLogger.(Log.base)).
Proof.
  apply (NewDefaultPrefixLogger_result Go.Int64 fnv32a "api" exampleLogger.(Log.base)).
  - reflexivity.
  - apply fnv32a_range.
Defined.

End LogFacts.

(** ** The manager *)

Module DevPodFacts.

Import DevPod.

Section Manager.

Variable sz : Go.intSize.
Variable StringToNumber : string -> Z.
Variable base : Log.Logger.

Local Abbreviation Start := (DevPod.Start sz StringToNumber base).
Local Abbreviation Starts := (DevPod.Starts sz StringToNumber base).
Local Abbreviation step := (DevPod.step sz StringToNumber base).
Local Abbreviation run := (DevPod.run sz StringToNumber base).
Local Abbreviation reachable := (DevPod.reachable sz StringToNumber base).
Local Abbreviation wellFormed := (DevPod.wellFormed sz StringToNumber base).
Local Abbreviation logger name :=
  (Log.NewDefaultPrefixLogger sz StringToNumber name base).

(** *** Start, case by case *)

Lemma Start_panics m name o :
  logger name = None -> Start m name o = (m, Panicked).
Proof. intros H. unfold DevPod.Start. rewrite H. reflexivity. Qed.

Lemma Start_alive m name o :
  is_Some (logger name) -> aliveIn m name = true ->
  Start m name o = (m, Failed DevPodAlreadyExists).
Proof.
  intros [l Hl] Ha. unfold DevPod.Start. rewrite Hl, Ha. reflexivity.
Qed.

Lemma Start_started m name :
  is_Some (logger name) -> aliveIn m name = false ->
  Start m name Started
  = ({| sessions := sessions m ++ [newDevPod];
        devPods := <[name := length (sessions m)]> (devPods m) |},
     Ok (length (sessions m))).
Proof.
  intros [l Hl] Ha. unfold DevPod.Start. rewrite Hl, Ha. reflexivity.
Qed.

Lemma Start_failed m name e after :
  is_Some (logger name) -> aliveIn m name = false ->
  Start m name (StartFailed e after)
  = ({| sessions := sessions m ++ [after];
        devPods := <[name := length (sessions m)]> (devPods m) |},
     Failed e).
Proof.
  intros [l Hl] Ha. unfold DevPod.Start. rewrite Hl, Ha. reflexivity.
Qed.

Lemma Start_not_panicked m name o :
  is_Some (logger name) -> snd (Start m name o) <> Panicked.
Proof.
  intros [l Hl]. unfold DevPod.Start. rewrite Hl.
  destruct (aliveIn m name); [discriminate|]. destruct o; discriminate.
Qed.

Lemma aliveIn_registers m name x :
  aliveIn {| sessions := sessions m ++ [x];
             devPods := <[name := length (sessions m)]> (devPods m) |} name
  = Alive x.
Proof.
  unfold aliveIn. simpl. rewrite lookup_insert_eq.
  rewrite lookup_app_r by lia. rewrite Nat.sub_diag. reflexivity.
Qed.

(** After a call that returned [nil] the name is alive and its logger
    can be built. *)
Lemma Start_Ok m name o m' p :
  Start m name o = (m', Ok p) ->
  is_Some (logger name) /\ aliveIn m' name = true /\ o = Started.
Proof.
  unfold DevPod.Start. destruct (logger name) as [l|] eqn:Hl; [|discriminate].
  destruct (aliveIn m name) eqn:Ha; [discriminate|].
  destruct o; [|discriminate]. intros [= <- <-].
  split; [eauto|]. split; [|reflexivity]. apply aliveIn_registers.
Qed.

(** *** The registry stays well formed *)

Lemma wellFormed_new : wellFormed NewManager.
Proof.
  split; simpl.
  - intros name p H. rewrite lookup_empty in H. discriminate.
  - intros name name' p H. rewrite lookup_empty in H. discriminate.
  - intros p dp H. rewrite lookup_nil in H. discriminate.
  - intros name p H. rewrite lookup_empty in H. discriminate.
Qed.

Lemma wellFormed_register m name x :
  wellFormed m -> is_Some (logger name) -> aliveIn m name = false ->
  wellFormed {| sessions := sessions m ++ [x];
                devPods := <[name := length (sessions m)]> (devPods m) |}.
Proof.
  intros [Hb Hi Ha Hl] Hlog Hdead. split; simpl.
  - intros n p. rewrite length_app. simpl.
    destruct (decide (name = n)) as [->|Hne].
    + rewrite lookup_insert_eq. intros [= <-]. lia.
    + rewrite lookup_insert_ne by exact Hne. intros H. apply Hb in H. lia.
  - intros n n' p.
    destruct (decide (name = n)) as [E|Hne], (decide (name = n')) as [E'|Hne'];
      try subst n; try subst n';
      rewrite ?lookup_insert_eq, ?lookup_insert_ne by assumption.
    + reflexivity.
    + intros [= <-] H. apply Hb in H. lia.
    + intros H [= <-]. apply Hb in H. lia.
    + apply Hi.
  - intros p dp Hp Halive.
    destruct (decide (p < length (sessions m))%nat) as [Hlt|Hge].
    + rewrite lookup_app_l in Hp by exact Hlt.
      destruct (Ha p dp Hp Halive) as [n Hn].
      exists n. rewrite lookup_insert_ne; [exact Hn|].
      intros <-. unfold aliveIn in Hdead. rewrite Hn, Hp in Hdead. congruence.
    + exists name. apply lookup_lt_Some in Hp. rewrite length_app in Hp. simpl in Hp.
      replace p with (length (sessions m)) by lia. apply lookup_insert_eq.
  - intros n p.
    destruct (decide (name = n)) as [->|Hne].
    + intros _. exact Hlog.
    + rewrite lookup_insert_ne by exact Hne. apply Hl.
Qed.

Lemma wellFormed_Start m name o : wellFormed m -> wellFormed (fst (Start m name o)).
Proof.
  intros Hwf. unfold DevPod.Start.
  destruct (logger name) as [l|] eqn:Hl; [|exact Hwf].
  destruct (aliveIn m name) eqn:Ha; [exact Hwf|].
  destruct o; simpl; apply wellFormed_register; eauto.
Qed.

Lemma Stop_session_not_alive dp : Alive (Stop_session dp) = false.
Proof. unfold Alive, Stop_session. destruct (done dp) eqn:E; simpl; rewrite ?E; reflexivity. Qed.

Lemma complete_alive e dp : Alive (complete e dp) = true -> Alive dp = true.
Proof. unfold Alive, complete. destruct (done dp) eqn:E; simpl; rewrite ?E; auto. Qed.

Lemma wellFormed_stop m name : wellFormed m -> wellFormed (stop m name).
Proof.
  intros [Hb Hi Ha Hl]. unfold stop.
  destruct (devPods m !! name) as [p|] eqn:Hp; [|split; assumption].
  split; simpl.
  - intros n q Hq. rewrite length_alter.
    destruct (decide (name = n)) as [->|Hne].
    + rewrite lookup_delete_eq in Hq. discriminate.
    + rewrite lookup_delete_ne in Hq by exact Hne. eauto.
  - intros n n' q Hq Hq'.
    destruct (decide (name = n)) as [->|Hne]; [rewrite lookup_delete_eq in Hq; discriminate|].
    destruct (decide (name = n')) as [->|Hne']; [rewrite lookup_delete_eq in Hq'; discriminate|].
    rewrite lookup_delete_ne in Hq, Hq' by assumption. eauto.
  - intros q dq Hq Halive.
    destruct (decide (p = q)) as [<-|Hne].
    + rewrite list_lookup_alter_eq in Hq.
      destruct (sessions m !! p) as [dp|]; [|discriminate].
      simpl in Hq. injection Hq as <-.
      rewrite Stop_session_not_alive in Halive. discriminate.
    + rewrite list_lookup_alter_ne in Hq by exact Hne.
      destruct (Ha q dq Hq Halive) as [n Hn].
      exists n. rewrite lookup_delete_ne; [exact Hn|].
      intros <-. congruence.
  - intros n q Hq.
    destruct (decide (name = n)) as [->|Hne]; [rewrite lookup_delete_eq in Hq; discriminate|].
    rewrite lookup_delete_ne in Hq by exact Hne. eauto.
Qed.

Lemma wellFormed_sessionDone m p e : wellFormed m -> wellFormed (sessionDone m p e).
Proof.
  intros [Hb Hi Ha Hl]. split; simpl; eauto.
  - intros n q Hq. rewrite length_alter. eauto.
  - intros q dq Hq Halive.
    destruct (decide (p = q)) as [<-|Hne].
    + rewrite list_lookup_alter_eq in Hq.
      destruct (sessions m !! p) as [dp|] eqn:Hp; [|discriminate].
      simpl in Hq. injection Hq as <-.
      apply complete_alive in Halive. eauto.
    + rewrite list_lookup_alter_ne in Hq by exact Hne. eauto.
Qed.

Lemma wellFormed_step m o : wellFormed m -> wellFormed (step m o).
Proof.
  intros Hwf. destruct o; simpl.
  - apply wellFormed_Start, Hwf.
  - apply wellFormed_stop, Hwf.
  - apply wellFormed_stop, Hwf.
  - apply wellFormed_sessionDone, Hwf.
Qed.

Lemma reachable_wellFormed m : reachable m -> wellFormed m.
Proof.
  induction 1 as [|m o _ IH]; [apply wellFormed_new|apply wellFormed_step, IH].
Qed.

Lemma reachable_run m ops : reachable m -> reachable (run m ops).
Proof.
  revert m. induction ops as [|o ops IH]; intros m Hm; simpl; [exact Hm|].
  apply IH. constructor. exact Hm.
Qed.

Lemma aliveIn_logger m name :
  wellFormed m -> aliveIn m name = true -> is_Some (logger name).
Proof.
  intros Hwf Ha. unfold aliveIn in Ha.
  destruct (devPods m !! name) as [p|] eqn:Hp; [|discriminate].
  eapply wf_logger; eauto.
Qed.

(** *** Calls of Start for one name *)

Lemma Starts_alive m name os :
  is_Some (logger name) -> aliveIn m name = true ->
  Starts m name os = (m, replicate (length os) (Failed DevPodAlreadyExists)).
Proof.
  intros Hl Ha. induction os as [|o os IH]; simpl; [reflexivity|].
  rewrite (Start_alive m name o Hl Ha), IH. reflexivity.
Qed.

Lemma Forall_conflict_replicate n :
  Forall (fun r => isConflict r = true) (replicate n (Failed DevPodAlreadyExists)).
Proof. induction n; simpl; constructor; auto. Qed.

Lemma filter_isOk_conflicts n :
  List.filter isOk (replicate n (Failed DevPodAlreadyExists)) = [].
Proof. induction n; simpl; auto. Qed.

Lemma Starts_cons m name o os :
  snd (Starts m name (o :: os))
  = snd (Start m name o) :: snd (Starts (fst (Start m name o)) name os).
Proof.
  simpl. destruct (Start m name o) as [m1 r]. simpl.
  destruct (Starts m1 name os) as [m2 rs]. reflexivity.
Qed.

Lemma Starts_after_Ok m name o os p :
  snd (Start m name o) = Ok p ->
  snd (Starts (fst (Start m name o)) name os)
  = replicate (length os) (Failed DevPodAlreadyExists).
Proof.
  intros H. destruct (Start m name o) as [m1 r] eqn:E. simpl in *. subst r.
  destruct (Start_Ok _ _ _ _ _ E) as (Hl & Ha & _).
  rewrite (Starts_alive m1 name os Hl Ha). reflexivity.
Qed.

(** At most one call succeeds, and every call behind it is turned
    away with Conflict. *)
Lemma Starts_at_most_one name os : forall m,
  (length (List.filter isOk (snd (Starts m name os))) <= 1)%nat
  /\ forall before r after,
       snd (Starts m name os) = before ++ r :: after -> isOk r = true ->
       Forall (fun r' => isConflict r' = true) after.
Proof.
  induction os as [|o os IH]; intros m.
  - simpl. split; [lia|]. intros [|b before] r after H; discriminate.
  - rewrite Starts_cons.
    destruct (isOk (snd (Start m name o))) eqn:Hok.
    + destruct (snd (Start m name o)) as [p| |] eqn:Hr; try discriminate.
      rewrite (Starts_after_Ok m name o os p Hr). split.
      * simpl. rewrite filter_isOk_conflicts. simpl. lia.
      * intros [|b before] r after H Hr'.
        -- injection H as _ <-. apply Forall_conflict_replicate.
        -- injection H as _ H.
           pose proof (Forall_conflict_replicate (length os)) as F.
           rewrite H in F. apply Forall_app in F as [_ F].
           inversion F; assumption.
    + destruct (IH (fst (Start m name o))) as [IH1 IH2]. split.
      * simpl. rewrite Hok. exact IH1.
      * intros [|b before] r after H Hr'.
        -- injection H as <- _. congruence.
        -- injection H as _ H. eauto.
Qed.

(** With no live session under the name and every session start
    succeeding, the first call wins. *)
Lemma Starts_first_wins m name n :
  is_Some (logger name) -> aliveIn m name = false ->
  snd (Starts m name (replicate (S n) Started))
  = Ok (length (sessions m)) :: replicate n (Failed DevPodAlreadyExists).
Proof.
  intros Hl Ha. simpl replicate. rewrite Starts_cons.
  rewrite (Start_started m name Hl Ha). simpl fst. simpl snd. f_equal.
  rewrite Starts_alive; [simpl; rewrite length_replicate; reflexivity|exact Hl|].
  apply aliveIn_registers.
Qed.

(** C1 (as amended): in every reachable state a live session is
    registered under exactly one name and a name holds at most one
    session.  Of the calls of [Start] for one name, taken in the order
    in which they get the lock of the name, at most one succeeds and
    all calls behind it receive Conflict; when no session is alive
    under the name and every session start succeeds, exactly the
    first call succeeds and all others receive Conflict; a call whose
    session does not start returns the error of the session. *)
Theorem one_live_session_per_name m name os :
  reachable m ->
  (forall p q dp dq,
      devPods m !! name = Some p -> devPods m !! name = Some q ->
      sessions m !! p = Some dp -> sessions m !! q = Some dq ->
      Alive dp = true -> Alive dq = true -> p = q)
  /\ (forall p dp,
        sessions m !! p = Some dp -> Alive dp = true ->
        exists n, devPods m !! n = Some p
                  /\ forall n', devPods m !! n' = Some p -> n' = n)
  /\ (length (List.filter isOk (snd (Starts m name os))) <= 1)%nat
  /\ (forall before r after,
        snd (Starts m name os) = before ++ r :: after -> isOk r = true ->
        Forall (fun r' => isConflict r' = true) after)
  /\ (aliveIn m name = false -> is_Some (logger name) ->
      forall n, os = replicate (S n) Started ->
        snd (Starts m name os)
        = Ok (length (sessions m)) :: replicate n (Failed DevPodAlreadyExists)
        /\ oneWinner (snd (Starts m name os)))
  /\ (aliveIn m name = false -> is_Some (logger name) ->
      forall e after, snd (Start m name (StartFailed e after)) = Failed e).
Proof.
  intros Hr. pose proof (reachable_wellFormed m Hr) as Hwf.
  split; [|split; [|split; [|split; [|split]]]];
    [| | | | |intros Ha Hl e after; rewrite (Start_failed m name e after Hl Ha); reflexivity].
  - intros p q dp dq Hp Hq _ _ _ _. congruence.
  - intros p dp Hp Ha.
    destruct (wf_registered _ _ _ _ Hwf p dp Hp Ha) as [n Hn].
    exists n. split; [exact Hn|].
    intros n' Hn'. eapply wf_unshared; eauto.
  - apply Starts_at_most_one.
  - apply Starts_at_most_one.
  - intros Ha Hl n ->. rewrite (Starts_first_wins m name n Hl Ha).
    split; [reflexivity|].
    exists [], (length (sessions m)), (replicate n (Failed DevPodAlreadyExists)).
    split; [reflexivity|]. split; [constructor|apply Forall_conflict_replicate].
Qed.

(** C2: a call of [Start] for a name with a live session returns
    Conflict and leaves the manager as it was. *)
Theorem Start_conflict_leaves_registry m name o :
  reachable m -> aliveIn m name = true ->
  Start m name o = (m, Failed DevPodAlreadyExists).
Proof.
  intros Hr Ha. apply Start_alive; [|exact Ha].
  eapply aliveIn_logger; [apply reachable_wellFormed, Hr|exact Ha].
Qed.

(** *** The restart loop *)

Lemma restartLoop_shape name script : forall m,
  is_Some (logger name) ->
  DevPod.loopShape name script (restartLoop sz StringToNumber base m name script).
Proof.
  induction script as [|a script IH]; intros m Hl.
  - exists [], []. simpl. auto.
  - simpl.
    pose proof (Start_not_panicked (run m (others a)) name (outcome a) Hl) as Hnp.
    destruct (Start (run m (others a)) name (outcome a)) as [m1 r].
    destruct r as [p|e|]; simpl in Hnp; [| |congruence].
    + exists [], [CallStart name (Ok p)]. simpl.
      split; [reflexivity|]. split; [constructor|]. exists a, (Ok p). simpl. auto.
    + destruct (isDone a) eqn:Hd.
      { exists [], [CallStart name (Failed e)]. simpl.
        split; [reflexivity|]. split; [constructor|].
        exists a, (Failed e). simpl. auto. }
      destruct (isDevPodAlreadyExists e) eqn:He.
      { exists [], [CallStart name (Failed e)]. simpl.
        split; [reflexivity|]. split; [constructor|].
        exists a, (Failed e). simpl. auto. }
      destruct (IH m1 Hl) as (failures & final & Htr & Hf & Hst).
      destruct (restartLoop sz StringToNumber base m1 name script) as [[tr m2] st].
      simpl in *. exists (e :: failures), final. simpl.
      split; [rewrite Htr; reflexivity|]. split; [constructor; auto|].
      destruct st; try exact Hst.
      destruct Hst as [-> Hlen]. auto.
Qed.

(** C3: the goroutine started by a successful [Start].  When the
    session is done and the context cancelled it returns at once, and
    so it does when the terminal error is not a lost connection.
    After a lost connection it calls [Start] for the same name again
    and again: each call that fails while the context is live, with
    an error other than Conflict, is logged and followed by a sleep of
    ten seconds; the first call that succeeds, or fails with the
    context cancelled, or fails with Conflict, is the last event of
    the goroutine. *)
Theorem restart_after_lost_connection m p name script dp :
  sessions m !! p = Some dp -> done dp = true ->
  watcher sz StringToNumber base m p name true script = ([], m, Returned)
  /\ (isDevPodLostConnection (err dp) = false ->
      watcher sz StringToNumber base m p name false script = ([], m, Returned))
  /\ (isDevPodLostConnection (err dp) = true -> is_Some (logger name) ->
      watcher sz StringToNumber base m p name false script
      = restartLoop sz StringToNumber base m name script
      /\ loopShape name script (watcher sz StringToNumber base m p name false script)).
Proof.
  intros Hp Hd. unfold watcher. rewrite Hp, Hd.
  split; [reflexivity|]. split.
  - intros ->. reflexivity.
  - intros -> Hl. split; [reflexivity|]. apply restartLoop_shape, Hl.
Qed.

End Manager.

(** C9: [Stop] on a name that is not registered changes nothing, a
    second [Stop] changes nothing more, and after [Stop] the name is not
    in the registry. *)
Theorem Stop_idempotent m name :
  (devPods m !! name = None -> Stop m name = m)
  /\ Stop (Stop m name) name = Stop m name
  /\ devPods (Stop m name) !! name = None.
Proof.
  unfold Stop, stop. destruct (devPods m !! name) as [p|] eqn:Hp.
  - split; [discriminate|]. simpl. rewrite lookup_delete_eq. auto.
  - rewrite Hp. auto.
Qed.

Lemma Stop_idempotent_witness :
  (devPods NewManager !! "api"%string = None -> Stop NewManager "api" = NewManager)
  /\ Stop (Stop NewManager "api") "api" = Stop NewManager "api"
  /\ devPods (Stop NewManager "api") !! "api"%string = None.
Proof. apply (Stop_idempotent NewManager "api"). Defined.

Lemma Start_conflict_leaves_registry_witness :
  Start Go.Int64 Log.fnv32a exampleBase apiRunning "api" Started
  = (apiRunning, Failed DevPodAlreadyExists).
Proof.
  apply (Start_conflict_leaves_registry Go.Int64 Log.fnv32a exampleBase
           apiRunning "api" Started).
  - apply reachable_step, reachable_new.
  - vm_compute. reflexivity.
Defined.

Lemma logger_api :
  is_Some (Log.NewDefaultPrefixLogger Go.Int64 Log.fnv32a "api" exampleBase).
Proof. eexists. vm_compute. reflexivity. Qed.

Lemma one_live_session_per_name_witness :
  snd (Starts Go.Int64 Log.fnv32a exampleBase NewManager "api" (replicate 3 Started))
  = Ok 0 :: replicate 2 (Failed DevPodAlreadyExists)
  /\ oneWinner (snd (Starts Go.Int64 Log.fnv32a exampleBase NewManager "api"
                       (replicate 3 Started))).
Proof.
  destruct (one_live_session_per_name Go.Int64 Log.fnv32a exampleBase NewManager "api"
              (replicate 3 Started) (reachable_new _ _ _)) as (_ & _ & _ & _ & H & _).
  apply (H eq_refl logger_api 2%nat eq_refl).
Defined.

(** C1 (as stated) fails: when the session of the first caller does not
    start, that caller receives the error of the session, which is
    neither success nor Conflict; whether the session is left stopped or
    alive, the calls do not split into one winner and Conflicts. *)
Lemma Start_failure_counterexample :
  snd (Starts Go.Int64 Log.fnv32a exampleBase NewManager "api"
         [StartFailed noPod {| done := true; err := Some noPod |}; Started])
  = [Failed noPod; Ok 1%nat]
  /\ snd (Starts Go.Int64 Log.fnv32a exampleBase NewManager "api"
            [StartFailed noPod newDevPod; Started])
     = [Failed noPod; Failed DevPodAlreadyExists]
  /\ ~ oneWinner [Failed noPod; Ok 1%nat]
  /\ ~ oneWinner [Failed noPod; Failed DevPodAlreadyExists].
Proof.
  split; [vm_compute; reflexivity|]. split; [vm_compute; reflexivity|].
  split; intros (before & p & after & H & Hb & _);
    destruct before as [|b [|b' before]]; simpl in H; try discriminate;
    try (injection H as <- _; inversion Hb; subst; discriminate);
    injection H as _ _ H; destruct before; discriminate.
Qed.

Lemma restart_after_lost_connection_witness :
  watcher Go.Int64 Log.fnv32a exampleBase lostApi 0 "api" true exampleScript
  = ([], lostApi, Returned)
  /\ (isDevPodLostConnection (err lost) = false ->
      watcher Go.Int64 Log.fnv32a exampleBase lostApi 0 "api" false exampleScript
      = ([], lostApi, Returned))
  /\ (isDevPodLostConnection (err lost) = true ->
      is_Some (Log.NewDefaultPrefixLogger Go.Int64 Log.fnv32a "api" exampleBase) ->
      watcher Go.Int64 Log.fnv32a exampleBase lostApi 0 "api" false exampleScript
      = restartLoop Go.Int64 Log.fnv32a exampleBase lostApi "api" exampleScript
      /\ loopShape "api" exampleScript
           (watcher Go.Int64 Log.fnv32a exampleBase lostApi 0 "api" false exampleScript)).
Proof.
  apply (restart_after_lost_connection Go.Int64 Log.fnv32a exampleBase
           lostApi 0%nat "api" exampleScript lost).
  - vm_compute. reflexivity.
  - reflexivity.
Defined.

(** The run of the example: two failed calls, each followed by the log
    line and the sleep, then the call that succeeds. *)
Example restart_example :
  watcher Go.Int64 Log.fnv32a exampleBase lostApi 0 "api" false exampleScript
  = (backoff "api" noPod ++ backoff "api" noPod ++ [CallStart "api" (Ok 3%nat)],
     fst (Start Go.Int64 Log.fnv32a exampleBase
            (run Go.Int64 Log.fnv32a exampleBase lostApi
               [OpStart "api" (StartFailed noPod {| done := true; err := Some noPod |});
                OpStart "api" (StartFailed noPod {| done := true; err := Some noPod |})])
            "api" Started),
     Returned).
Proof. vm_compute. reflexivity. Qed.


(** *** More on Start, Stop and Reset *)

Section Operations.

Variable sz : Go.intSize.
Variable StringToNumber : string -> Z.
Variable base : Log.Logger.

Local Abbreviation Start := (DevPod.Start sz StringToNumber base).
Local Abbreviation step := (DevPod.step sz StringToNumber base).
Local Abbreviation run := (DevPod.run sz StringToNumber base).
Local Abbreviation reachable := (DevPod.reachable sz StringToNumber base).
Local Abbreviation wellFormed := (DevPod.wellFormed sz StringToNumber base).
Local Abbreviation logger name :=
  (Log.NewDefaultPrefixLogger sz StringToNumber name base).

Lemma Start_sessions_kept m name o q dp :
  sessions m !! q = Some dp -> sessions (fst (Start m name o)) !! q = Some dp.
Proof.
  intros H. unfold DevPod.Start.
  destruct (logger name); [|exact H]. destruct (aliveIn m name); [exact H|].
  destruct o; simpl; apply lookup_app_l_Some; exact H.
Qed.

Lemma Start_registry_other m name o name' :
  name <> name' -> devPods (fst (Start m name o)) !! name' = devPods m !! name'.
Proof.
  intros Hne. unfold DevPod.Start.
  destruct (logger name); [|reflexivity]. destruct (aliveIn m name); [reflexivity|].
  destruct o; simpl; apply lookup_insert_ne; exact Hne.
Qed.

Lemma Start_alive_other m name o name' :
  wellFormed m -> name <> name' ->
  aliveIn (fst (Start m name o)) name' = aliveIn m name'.
Proof.
  intros Hwf Hne. unfold aliveIn. rewrite (Start_registry_other m name o name' Hne).
  destruct (devPods m !! name') as [p|] eqn:Hp; [|reflexivity].
  pose proof (wf_allocated _ _ _ _ Hwf name' p Hp) as Hlt.
  destruct (lookup_lt_is_Some_2 (sessions m) p Hlt) as [dp Hdp].
  rewrite (Start_sessions_kept m name o p dp Hdp), Hdp. reflexivity.
Qed.

Lemma aliveIn_stop m name : aliveIn (stop m name) name = false.
Proof.
  unfold aliveIn, stop. destruct (devPods m !! name) as [p|] eqn:Hp; simpl.
  - rewrite lookup_delete_eq. reflexivity.
  - rewrite Hp. reflexivity.
Qed.

Lemma length_sessions_stop m name : length (sessions (stop m name)) = length (sessions m).
Proof.
  unfold stop. destruct (devPods m !! name); simpl; [apply length_alter|reflexivity].
Qed.

(** X7: [Start] returns [nil] exactly when the logger of the name can be
    built, no live session is registered under the name and the session
    starts; the new session is then the last one allocated.  It panics
    exactly when the logger cannot be built. *)
Theorem Start_succeeds_iff m name o p :
  (snd (Start m name o) = Ok p
   <-> is_Some (logger name) /\ aliveIn m name = false /\ o = Started
       /\ p = length (sessions m))
  /\ (snd (Start m name o) = Panicked <-> logger name = None).
Proof.
  unfold DevPod.Start. destruct (logger name) as [l|] eqn:Hl.
  - destruct (aliveIn m name) eqn:Ha.
    + simpl. split; split; try discriminate.
      intros (_ & H & _). discriminate.
    + destruct o; simpl; split; split; try discriminate.
      * intros [= <-]. eauto.
      * intros (_ & _ & _ & ->). reflexivity.
      * intros (_ & _ & H & _). discriminate.
  - simpl. split; split; try discriminate; auto.
    intros ([? H] & _). discriminate.
Qed.

(** X8: [Start] for one name leaves the entries of all other names and all
    sessions allocated before as they were; in a reachable state the
    other names are alive after the call exactly when they were before. *)
Theorem Start_leaves_the_others m name o :
  reachable m ->
  (forall name', name <> name' ->
     devPods (fst (Start m name o)) !! name' = devPods m !! name'
     /\ aliveIn (fst (Start m name o)) name' = aliveIn m name')
  /\ (forall q dp, sessions m !! q = Some dp ->
        sessions (fst (Start m name o)) !! q = Some dp).
Proof.
  intros Hr. split.
  - intros name' Hne. split; [apply Start_registry_other, Hne|].
    apply Start_alive_other; [|exact Hne]. apply reachable_wellFormed, Hr.
  - intros q dp. apply Start_sessions_kept.
Qed.

(** X9: Two dev pods with different names do not stand in each other's way:
    started one after the other from a state in which neither is alive,
    both calls succeed and both names are alive afterwards. *)
Theorem Start_of_two_names m name name' :
  reachable m -> name <> name' ->
  is_Some (logger name) -> is_Some (logger name') ->
  aliveIn m name = false -> aliveIn m name' = false ->
  let m1 := fst (Start m name Started) in
  let m2 := fst (Start m1 name' Started) in
  snd (Start m name Started) = Ok (length (sessions m))
  /\ snd (Start m1 name' Started) = Ok (S (length (sessions m)))
  /\ aliveIn m2 name = true /\ aliveIn m2 name' = true.
Proof.
  intros Hr Hne Hl Hl' Ha Ha'. cbv zeta.
  pose proof (reachable_wellFormed _ _ _ m Hr) as Hwf.
  pose proof (wellFormed_Start _ _ _ m name Started Hwf) as Hwf1.
  assert (Ha1 : aliveIn (fst (Start m name Started)) name' = false)
    by (rewrite (Start_alive_other m name Started name' Hwf Hne); exact Ha').
  split; [rewrite (Start_started _ _ _ m name Hl Ha); reflexivity|].
  split.
  - rewrite (Start_started _ _ _ _ name' Hl' Ha1). simpl.
    rewrite (Start_started _ _ _ m name Hl Ha). simpl.
    rewrite length_app. simpl. f_equal. lia.
  - split.
    + rewrite (Start_alive_other _ name' Started name Hwf1 (not_eq_sym Hne)).
      rewrite (Start_started _ _ _ m name Hl Ha). apply aliveIn_registers.
    + rewrite (Start_started _ _ _ _ name' Hl' Ha1). apply aliveIn_registers.
Qed.

(** X10: [Stop] completes the session that was registered and touches nothing
    else: the other sessions and the entries of the other names stay as
    they were, and no session is allocated or freed. *)
Theorem Stop_completes_the_session m name p dp :
  devPods m !! name = Some p -> sessions m !! p = Some dp ->
  sessions (Stop m name) !! p = Some (Stop_session dp)
  /\ Alive (Stop_session dp) = false
  /\ (done dp = true -> Stop_session dp = dp)
  /\ (forall q, q <> p -> sessions (Stop m name) !! q = sessions m !! q)
  /\ (forall name', name <> name' -> devPods (Stop m name) !! name' = devPods m !! name')
  /\ length (sessions (Stop m name)) = length (sessions m).
Proof.
  intros Hp Hdp. unfold Stop, stop. rewrite Hp. simpl.
  split; [rewrite list_lookup_alter_eq, Hdp; reflexivity|].
  split; [apply Stop_session_not_alive|].
  split; [intros Hd; unfold Stop_session; rewrite Hd; reflexivity|].
  split; [intros q Hq; apply list_lookup_alter_ne; auto|].
  split; [intros name' Hne; apply lookup_delete_ne; exact Hne|].
  apply length_alter.
Qed.

(** X11: A dev pod that is registered can be started again once it has been
    stopped: after [Stop] the next [Start] succeeds with a fresh
    session. *)
Theorem Start_after_Stop m name :
  reachable m -> is_Some (devPods m !! name) ->
  snd (Start (Stop m name) name Started) = Ok (length (sessions m))
  /\ aliveIn (fst (Start (Stop m name) name Started)) name = true.
Proof.
  intros Hr [p Hp].
  assert (Hl : is_Some (logger name))
    by (eapply wf_logger; [apply reachable_wellFormed, Hr|exact Hp]).
  unfold Stop. rewrite (Start_started _ _ _ (stop m name) name Hl (aliveIn_stop m name)).
  simpl. rewrite length_sessions_stop. split; [reflexivity|].
  rewrite <- (length_sessions_stop m name). apply aliveIn_registers.
Qed.

(** X12: So can it once its session has completed by itself: the next
    [Start] succeeds and registers a new session in place of the old
    one. *)
Theorem Start_after_completion m name p e :
  reachable m -> devPods m !! name = Some p ->
  snd (Start (sessionDone m p e) name Started) = Ok (length (sessions m))
  /\ devPods (fst (Start (sessionDone m p e) name Started)) !! name
     = Some (length (sessions m))
  /\ p <> length (sessions m).
Proof.
  intros Hr Hp. pose proof (reachable_wellFormed _ _ _ m Hr) as Hwf.
  assert (Hl : is_Some (logger name)) by (eapply wf_logger; eauto).
  pose proof (wf_allocated _ _ _ _ Hwf name p Hp) as Hlt.
  assert (Ha : aliveIn (sessionDone m p e) name = false).
  { unfold aliveIn, sessionDone. simpl. rewrite Hp, list_lookup_alter_eq.
    destruct (sessions m !! p) as [dp|]; [|reflexivity]. simpl.
    unfold Alive, complete. destruct (done dp) eqn:Hd; simpl; rewrite ?Hd; reflexivity. }
  rewrite (Start_started _ _ _ _ name Hl Ha). simpl. rewrite length_alter.
  split; [reflexivity|]. split; [apply lookup_insert_eq|lia].
Qed.

(** X13: [Reset] stops and unregisters the session exactly as [Stop] does,
    whatever the pod replacer answers, and returns the error of the
    revert, if there is a replaced pod to revert and the revert fails. *)
Theorem Reset_stops_whatever_the_revert m name cached :
  fst (Reset m name cached) = Stop m name
  /\ devPods (fst (Reset m name cached)) !! name = None
  /\ aliveIn (fst (Reset m name cached)) name = false
  /\ (forall e, snd (Reset m name cached) = Some e <-> cached = Some (Some e))
  /\ fst (Reset (fst (Reset m name cached)) name cached) = fst (Reset m name cached).
Proof.
  unfold Reset, Stop. simpl.
  split; [reflexivity|]. split.
  { unfold stop. destruct (devPods m !! name) eqn:Hp; simpl;
      [apply lookup_delete_eq|exact Hp]. }
  split; [apply aliveIn_stop|]. split.
  - intros e. destruct cached as [[e'|]|]; split; congruence.
  - unfold stop at 1.
    replace (devPods (stop m name) !! name) with (@None nat); [reflexivity|].
    unfold stop. destruct (devPods m !! name) eqn:Hp; simpl;
      [rewrite lookup_delete_eq; reflexivity|rewrite Hp; reflexivity].
Qed.

(** *** Invariants of the runs *)

Lemma step_sessions_kept m o p dp :
  sessions m !! p = Some dp -> done dp = true ->
  sessions (step m o) !! p = Some dp.
Proof.
  intros Hp Hd. destruct o as [name so|name|name cached|q e]; simpl.
  - apply Start_sessions_kept, Hp.
  - unfold Stop, stop. destruct (devPods m !! name) as [q|]; [|exact Hp]. simpl.
    destruct (decide (q = p)) as [->|Hne].
    + rewrite list_lookup_alter_eq, Hp. simpl. unfold Stop_session. rewrite Hd. reflexivity.
    + rewrite list_lookup_alter_ne by exact Hne. exact Hp.
  - unfold stop. destruct (devPods m !! name) as [q|]; [|exact Hp]. simpl.
    destruct (decide (q = p)) as [->|Hne].
    + rewrite list_lookup_alter_eq, Hp. simpl. unfold Stop_session. rewrite Hd. reflexivity.
    + rewrite list_lookup_alter_ne by exact Hne. exact Hp.
  - destruct (decide (q = p)) as [->|Hne].
    + rewrite list_lookup_alter_eq, Hp. simpl. unfold complete. rewrite Hd. reflexivity.
    + rewrite list_lookup_alter_ne by exact Hne. exact Hp.
Qed.

Lemma step_sessions_grow m o : (length (sessions m) <= length (sessions (step m o)))%nat.
Proof.
  destruct o as [name so|name|name cached|q e]; simpl.
  - unfold DevPod.Start. destruct (logger name); [|simpl; lia].
    destruct (aliveIn m name); [simpl; lia|].
    destruct so; simpl; rewrite length_app; simpl; lia.
  - unfold Stop. rewrite length_sessions_stop. lia.
  - rewrite length_sessions_stop. lia.
  - rewrite length_alter. lia.
Qed.

(** X14: A session that has completed stays as it is for good: no later
    operation revives it or changes its terminal error, and no operation
    ever frees a session. *)
Theorem completed_session_is_final m p dp ops :
  sessions m !! p = Some dp -> done dp = true ->
  sessions (run m ops) !! p = Some dp
  /\ (length (sessions m) <= length (sessions (run m ops)))%nat.
Proof.
  revert m. induction ops as [|o ops IH]; intros m Hp Hd; simpl; [auto|].
  destruct (IH (step m o) (step_sessions_kept m o p dp Hp Hd) Hd) as [H1 H2].
  split; [exact H1|]. pose proof (step_sessions_grow m o). lia.
Qed.

(** X15: A name is registered only by a [Start] for that name. *)
Theorem only_Start_registers m name ops :
  devPods m !! name = None ->
  (forall o, ~ In (OpStart name o) ops) ->
  devPods (run m ops) !! name = None.
Proof.
  revert m. induction ops as [|o ops IH]; intros m Hn Hno; simpl; [exact Hn|].
  apply IH; [|intros so H; apply (Hno so); right; exact H].
  destruct o as [name' so|name'|name' cached|q e]; simpl.
  - destruct (decide (name' = name)) as [->|Hne].
    + exfalso. apply (Hno so). left. reflexivity.
    + rewrite Start_registry_other by exact Hne. exact Hn.
  - unfold Stop, stop. destruct (devPods m !! name'); [|exact Hn]. simpl.
    destruct (decide (name' = name)) as [->|Hne];
      [apply lookup_delete_eq|rewrite lookup_delete_ne by exact Hne; exact Hn].
  - unfold stop. destruct (devPods m !! name'); [|exact Hn]. simpl.
    destruct (decide (name' = name)) as [->|Hne];
      [apply lookup_delete_eq|rewrite lookup_delete_ne by exact Hne; exact Hn].
  - exact Hn.
Qed.

(** X16: In a reachable state the registry never dangles: every entry points
    to an allocated session, and the logger of its name can be built. *)
Theorem registry_points_to_sessions m name p :
  reachable m -> devPods m !! name = Some p ->
  is_Some (sessions m !! p) /\ is_Some (logger name).
Proof.
  intros Hr Hp. pose proof (reachable_wellFormed _ _ _ m Hr) as Hwf. split.
  - apply lookup_lt_is_Some_2. eapply wf_allocated; eauto.
  - eapply wf_logger; eauto.
Qed.

(** X17: When the restart loop ends with a call that succeeded, the name is
    alive again, under the session that call created. *)
Theorem restart_leaves_the_name_alive name script : forall m p,
  last (fst (fst (restartLoop sz StringToNumber base m name script)))
  = Some (CallStart name (Ok p)) ->
  let m' := snd (fst (restartLoop sz StringToNumber base m name script)) in
  snd (restartLoop sz StringToNumber base m name script) = Returned
  /\ devPods m' !! name = Some p /\ aliveIn m' name = true.
Proof.
  induction script as [|a script IH]; intros m p; simpl; [discriminate|].
  destruct (Start (DevPod.run sz StringToNumber base m (others a)) name (outcome a))
    as [m1 r] eqn:E.
  destruct r as [q|e|]; simpl.
  - intros [= ->]. destruct (Start_Ok _ _ _ _ _ _ _ _ E) as (Hl & Ha & Ho).
    split; [reflexivity|]. split; [|exact Ha].
    unfold DevPod.Start in E. destruct (logger name); [|discriminate].
    destruct (aliveIn _ name); [discriminate|].
    rewrite Ho in E. injection E as <- <-. simpl. apply lookup_insert_eq.
  - destruct (isDone a); [simpl; discriminate|].
    destruct (isDevPodAlreadyExists e); [simpl; discriminate|].
    specialize (IH m1 p).
    destruct (restartLoop sz StringToNumber base m1 name script) as [[tr m2] st].
    simpl in *. intros H. apply IH.
    destruct tr as [|ev tr]; [discriminate|].
    exact H.
  - discriminate.
Qed.

End Operations.

Lemma reachable_apiRunning :
  reachable Go.Int64 Log.fnv32a exampleBase apiRunning.
Proof. apply reachable_step, reachable_new. Qed.

Lemma logger_web :
  is_Some (Log.NewDefaultPrefixLogger Go.Int64 Log.fnv32a "web" exampleBase).
Proof. eexists. vm_compute. reflexivity. Qed.

Lemma Start_leaves_the_others_witness :
  aliveIn (fst (Start Go.Int64 Log.fnv32a exampleBase apiRunning "web" Started)) "api"
  = aliveIn apiRunning "api".
Proof.
  destruct (Start_leaves_the_others Go.Int64 Log.fnv32a exampleBase apiRunning "web"
              Started reachable_apiRunning) as [H _].
  apply (H "api"%string). discriminate.
Defined.

Lemma Start_of_two_names_witness :
  snd (Start Go.Int64 Log.fnv32a exampleBase NewManager "api" Started) = Ok 0
  /\ snd (Start Go.Int64 Log.fnv32a exampleBase
            (fst (Start Go.Int64 Log.fnv32a exampleBase NewManager "api" Started))
            "web" Started) = Ok 1
  /\ aliveIn (fst (Start Go.Int64 Log.fnv32a exampleBase
                     (fst (Start Go.Int64 Log.fnv32a exampleBase NewManager "api" Started))
                     "web" Started)) "api" = true
  /\ aliveIn (fst (Start Go.Int64 Log.fnv32a exampleBase
                     (fst (Start Go.Int64 Log.fnv32a exampleBase NewManager "api" Started))
                     "web" Started)) "web" = true.
Proof.
  apply (Start_of_two_names Go.Int64 Log.fnv32a exampleBase NewManager "api" "web").
  - apply reachable_new.
  - discriminate.
  - apply logger_api.
  - apply logger_web.
  - reflexivity.
  - reflexivity.
Defined.

Lemma Stop_completes_the_session_witness :
  sessions (Stop apiRunning "api") !! 0%nat = Some (Stop_session newDevPod)
  /\ Alive (Stop_session newDevPod) = false
  /\ (done newDevPod = true -> Stop_session newDevPod = newDevPod)
  /\ (forall q, q <> 0%nat -> sessions (Stop apiRunning "api") !! q = sessions apiRunning !! q)
  /\ (forall name', "api"%string <> name' ->
        devPods (Stop apiRunning "api") !! name' = devPods apiRunning !! name')
  /\ length (sessions (Stop apiRunning "api")) = length (sessions apiRunning).
Proof.
  apply (Stop_completes_the_session apiRunning "api" 0%nat newDevPod).
  - vm_compute. reflexivity.
  - vm_compute. reflexivity.
Defined.

Lemma Start_after_Stop_witness :
  snd (Start Go.Int64 Log.fnv32a exampleBase (Stop apiRunning "api") "api" Started)
  = Ok (length (sessions apiRunning))
  /\ aliveIn (fst (Start Go.Int64 Log.fnv32a exampleBase (Stop apiRunning "api")
                     "api" Started)) "api" = true.
Proof.
  apply (Start_after_Stop Go.Int64 Log.fnv32a exampleBase apiRunning "api").
  - apply reachable_apiRunning.
  - exists 0%nat. vm_compute. reflexivity.
Defined.

Lemma Start_after_completion_witness :
  snd (Start Go.Int64 Log.fnv32a exampleBase lostApi "api" Started)
  = Ok (length (sessions apiRunning))
  /\ devPods (fst (Start Go.Int64 Log.fnv32a exampleBase lostApi "api" Started))
     !! "api"%string = Some (length (sessions apiRunning))
  /\ 0%nat <> length (sessions apiRunning).
Proof.
  apply (Start_after_completion Go.Int64 Log.fnv32a exampleBase apiRunning "api" 0%nat
           (Some DevPodLostConnection)).
  - apply reachable_apiRunning.
  - vm_compute. reflexivity.
Defined.

Lemma completed_session_is_final_witness :
  sessions (run Go.Int64 Log.fnv32a exampleBase lostApi
              [OpStop "api"; OpStart "api" Started; OpDone 0 None]) !! 0%nat
  = Some lost
  /\ (length (sessions lostApi)
      <= length (sessions (run Go.Int64 Log.fnv32a exampleBase lostApi
                             [OpStop "api"; OpStart "api" Started; OpDone 0 None])))%nat.
Proof.
  apply (completed_session_is_final Go.Int64 Log.fnv32a exampleBase lostApi 0%nat lost).
  - vm_compute. reflexivity.
  - reflexivity.
Defined.

Lemma only_Start_registers_witness :
  devPods (run Go.Int64 Log.fnv32a exampleBase NewManager
             [OpStart "api" Started; OpStop "web"; OpReset "web" None]) !! "web"%string
  = None.
Proof.
  apply (only_Start_registers Go.Int64 Log.fnv32a exampleBase NewManager "web").
  - reflexivity.
  - intros o [H|[H|[H|[]]]]; discriminate.
Defined.

Lemma registry_points_to_sessions_witness :
  is_Some (sessions apiRunning !! 0%nat)
  /\ is_Some (Log.NewDefaultPrefixLogger Go.Int64 Log.fnv32a "api" exampleBase).
Proof.
  apply (registry_points_to_sessions Go.Int64 Log.fnv32a exampleBase apiRunning "api" 0%nat).
  - apply reachable_apiRunning.
  - vm_compute. reflexivity.
Defined.

Lemma restart_leaves_the_name_alive_witness :
  snd (restartLoop Go.Int64 Log.fnv32a exampleBase lostApi "api" exampleScript) = Returned
  /\ devPods (snd (fst (restartLoop Go.Int64 Log.fnv32a exampleBase lostApi "api"
                          exampleScript))) !! "api"%string = Some 3%nat
  /\ aliveIn (snd (fst (restartLoop Go.Int64 Log.fnv32a exampleBase lostApi "api"
                          exampleScript))) "api" = true.
Proof.
  apply (restart_leaves_the_name_alive Go.Int64 Log.fnv32a exampleBase "api"
           exampleScript lostApi 3%nat).
  vm_compute. reflexivity.
Defined.


(** *** StartMultiple *)

Lemma Contains_In s e : Contains s e = true <-> In e s.
Proof.
  unfold Contains. rewrite existsb_exists. split.
  - intros (x & Hx & He). apply String.eqb_eq in He. subst. exact Hx.
  - intros H. exists e. split; [exact H|apply String.eqb_refl].
Qed.

(** X18: With an empty selection [StartMultiple] starts every configured dev
    pod; otherwise it starts those whose key is in the selection.  A
    selected name that is not configured starts nothing and raises no
    error. *)
Theorem StartMultiple_selection dev devPods name :
  (In name (started dev devPods)
   <-> exists key, In (key, name) dev /\ (devPods = [] \/ In key devPods))
  /\ started dev [] = map snd dev
  /\ (length (started dev devPods) <= length dev)%nat.
Proof.
  unfold started. split; [|split].
  - rewrite in_map_iff. split.
    + intros ([key n] & Hn & Hin). simpl in Hn. subst n.
      apply filter_In in Hin as [Hin Hsel]. exists key. split; [exact Hin|].
      simpl in Hsel. destruct devPods as [|d ds]; [left; reflexivity|right].
      simpl in Hsel. apply negb_true_iff, negb_false_iff in Hsel.
      apply Contains_In. exact Hsel.
    + intros (key & Hin & Hsel). exists (key, name). split; [reflexivity|].
      apply filter_In. split; [exact Hin|]. simpl.
      destruct Hsel as [->|Hk]; [reflexivity|].
      apply Contains_In in Hk. rewrite Hk. simpl. rewrite andb_false_r. reflexivity.
  - induction dev as [|x dev IH]; simpl; [reflexivity|]. f_equal. exact IH.
  - rewrite length_map. apply List.filter_length_le.
Qed.

Section Multiple.

Variable sz : Go.intSize.
Variable StringToNumber : string -> Z.
Variable base : Log.Logger.

Local Abbreviation Start := (DevPod.Start sz StringToNumber base).
Local Abbreviation StartEach := (DevPod.StartEach sz StringToNumber base).
Local Abbreviation wellFormed := (DevPod.wellFormed sz StringToNumber base).
Local Abbreviation logger name :=
  (Log.NewDefaultPrefixLogger sz StringToNumber name base).

Lemma StartEach_all_start outcome names : forall m,
  wellFormed m -> List.NoDup names ->
  (forall n, In n names ->
     is_Some (logger n) /\ aliveIn m n = false /\ outcome n = Started) ->
  let r := StartEach m names outcome in
  wellFormed (fst r)
  /\ length (snd r) = length names
  /\ Forall (fun x => isOk x = true) (snd r)
  /\ (forall n, In n names -> aliveIn (fst r) n = true)
  /\ (forall n, ~ In n names ->
        devPods (fst r) !! n = devPods m !! n /\ aliveIn (fst r) n = aliveIn m n).
Proof.
  induction names as [|name rest IH]; intros m Hwf Hnd Hall; cbv zeta.
  - simpl. split; [exact Hwf|]. split; [reflexivity|]. split; [constructor|].
    split; [intros n []|auto].
  - inversion Hnd as [|? ? Hnotin Hnd']; subst.
    destruct (Hall name (or_introl eq_refl)) as (Hl & Ha & Ho).
    simpl. rewrite Ho, (Start_started sz StringToNumber base m name Hl Ha).
    set (m1 := {| sessions := sessions m ++ [newDevPod];
                  devPods := <[name := length (sessions m)]> (devPods m) |}).
    assert (Hwf1 : wellFormed m1) by (apply wellFormed_register; assumption).
    assert (E1 : m1 = fst (Start m name Started))
      by (rewrite (Start_started sz StringToNumber base m name Hl Ha); reflexivity).
    assert (Hall1 : forall n, In n rest ->
              is_Some (logger n) /\ aliveIn m1 n = false /\ outcome n = Started).
    { intros n Hn. destruct (Hall n (or_intror Hn)) as (Hl' & Ha' & Ho').
      repeat split; try assumption.
      rewrite E1, (Start_alive_other sz StringToNumber base m name Started n Hwf); [exact Ha'|].
      intros ->. contradiction. }
    destruct (IH m1 Hwf1 Hnd' Hall1) as (W & L & F & A & O). cbv zeta in *.
    destruct (DevPod.StartEach sz StringToNumber base m1 rest outcome) as [m2 rs].
    simpl in *. split; [exact W|]. split; [lia|]. split; [constructor; auto|]. split.
    + intros n [<-|Hn]; [|apply A, Hn].
      destruct (O name Hnotin) as [_ ->]. apply aliveIn_registers.
    + intros n Hn.
      assert (Hne : name <> n) by (intros ->; apply Hn; left; reflexivity).
      assert (Hr : ~ In n rest) by (intros H; apply Hn; right; exact H).
      destruct (O n Hr) as [O1 O2]. rewrite O1, O2, E1. split.
      * apply lookup_insert_ne, Hne.
      * apply Start_alive_other; assumption.
Qed.

(** X19: When the selected dev pods have different names, none of them is
    alive, and every session starts, [StartMultiple] returns no error,
    every selected dev pod is alive afterwards, and the entries of all
    other names are as before. *)
Theorem StartMultiple_starts_the_selection m dev selection outcome :
  DevPod.reachable sz StringToNumber base m ->
  List.NoDup (started dev selection) ->
  (forall n, In n (started dev selection) ->
     is_Some (logger n) /\ aliveIn m n = false /\ outcome n = Started) ->
  let r := DevPod.StartMultiple sz StringToNumber base m dev selection outcome in
  snd r = None
  /\ (forall n, In n (started dev selection) -> aliveIn (fst r) n = true)
  /\ (forall n, ~ In n (started dev selection) ->
        devPods (fst r) !! n = devPods m !! n /\ aliveIn (fst r) n = aliveIn m n).
Proof.
  intros Hr Hnd Hall. cbv zeta. unfold DevPod.StartMultiple.
  destruct (StartEach_all_start outcome (started dev selection) m
              (reachable_wellFormed _ _ _ m Hr) Hnd Hall) as (_ & _ & F & A & O).
  cbv zeta in *.
  destruct (DevPod.StartEach sz StringToNumber base m (started dev selection) outcome)
    as [m' rs].
  simpl in *. split; [|split; assumption].
  unfold firstError.
  replace (List.filter (fun r => negb (isOk r)) rs) with (@nil result); [reflexivity|].
  symmetry. induction F as [|x l Hx _ IH]; simpl; [reflexivity|].
  rewrite Hx. simpl. exact IH.
Qed.

End Multiple.

Lemma StartMultiple_starts_the_selection_witness :
  snd (StartMultiple Go.Int64 Log.fnv32a exampleBase NewManager
         [("api", "api"); ("web", "web"); ("db", "db")]%string
         ["web"; "api"; "cache"]%string (fun _ => Started)) = None
  /\ (forall n, In n (started [("api", "api"); ("web", "web"); ("db", "db")]%string
                        ["web"; "api"; "cache"]%string) ->
        aliveIn (fst (StartMultiple Go.Int64 Log.fnv32a exampleBase NewManager
                        [("api", "api"); ("web", "web"); ("db", "db")]%string
                        ["web"; "api"; "cache"]%string (fun _ => Started))) n = true)
  /\ (forall n, ~ In n (started [("api", "api"); ("web", "web"); ("db", "db")]%string
                          ["web"; "api"; "cache"]%string) ->
        devPods (fst (StartMultiple Go.Int64 Log.fnv32a exampleBase NewManager
                        [("api", "api"); ("web", "web"); ("db", "db")]%string
                        ["web"; "api"; "cache"]%string (fun _ => Started))) !! n
        = devPods NewManager !! n
        /\ aliveIn (fst (StartMultiple Go.Int64 Log.fnv32a exampleBase NewManager
                           [("api", "api"); ("web", "web"); ("db", "db")]%string
                           ["web"; "api"; "cache"]%string (fun _ => Started))) n
           = aliveIn NewManager n).
Proof.
  apply (StartMultiple_starts_the_selection Go.Int64 Log.fnv32a exampleBase NewManager
           [("api", "api"); ("web", "web"); ("db", "db")]%string
           ["web"; "api"; "cache"]%string (fun _ => Started)).
  - apply reachable_new.
  - vm_compute. repeat constructor; simpl; intuition discriminate.
  - intros n Hn. vm_compute in Hn.
    destruct Hn as [<-|[<-|[]]]; repeat split; try reflexivity.
    + apply logger_api.
    + apply logger_web.
Defined.

End DevPodFacts.

(** ** Port forwarding *)

Module PortForwardingFacts.

Import PortForwarding.

(** *** select *)

Lemma earliest_later t l :
  Forall (later t) l ->
  match earliest l with Some u => t < u | None => True end.
Proof.
  induction 1 as [|[a o] l Hx _ IH]; simpl; [exact I|].
  unfold later in Hx. simpl in Hx.
  destruct o as [x|], (earliest l) as [y|]; simpl; auto. lia.
Qed.

Lemma filter_later t l : Forall (later t) l -> List.filter (firesAt t) l = [].
Proof.
  induction 1 as [|[a o] l Hx _ IH]; simpl; [reflexivity|].
  unfold later in Hx. unfold firesAt. simpl in *.
  destruct o as [u|]; [|exact IH].
  destruct (Z.eqb_spec u t); [lia|exact IH].
Qed.

Lemma earliest_app l1 l2 : earliest (l1 ++ l2) = sooner (earliest l1) (earliest l2).
Proof.
  induction l1 as [|[a o] l1 IH]; simpl.
  - destruct (earliest l2); reflexivity.
  - rewrite IH. destruct o, (earliest l1), (earliest l2); simpl; f_equal; lia.
Qed.

Lemma earliest_first a t arms : firesFirst a t arms -> earliest arms = Some t.
Proof.
  intros (l1 & l2 & -> & H1 & H2). rewrite earliest_app. simpl.
  apply earliest_later in H1. apply earliest_later in H2.
  destruct (earliest l1), (earliest l2); simpl; f_equal; lia.
Qed.

(** The arm that fires strictly first is the one the select takes,
    whatever the run-time's choice. *)
Lemma select_first choice a t arms :
  firesFirst a t arms -> select choice arms = Some a.
Proof.
  intros H. unfold select. rewrite (earliest_first a t arms H).
  destruct H as (l1 & l2 & -> & H1 & H2).
  rewrite List.filter_app. simpl. rewrite (filter_later t l1 H1), (filter_later t l2 H2).
  replace (firesAt t (a, Some t)) with true
    by (unfold firesAt; simpl; symmetry; apply Z.eqb_refl).
  cbn [app map fst length]. rewrite Nat.mod_1_r. reflexivity.
Qed.

Lemma earliest_fires l t :
  earliest l = Some t -> exists x, In x l /\ firesAt t x = true.
Proof.
  revert t. induction l as [|[a o] l IH]; intros t; simpl; [discriminate|].
  destruct o as [u|], (earliest l) as [v|] eqn:E; simpl; intros [= Ht].
  - destruct (Z.min_spec u v) as [[_ Hm]|[_ Hm]].
    + exists (a, Some u). split; [auto|]. unfold firesAt. simpl. apply Z.eqb_eq. lia.
    + destruct (IH v eq_refl) as (x & Hin & Hx). exists x. split; [auto|]. congruence.
  - exists (a, Some u). split; [auto|]. unfold firesAt. simpl. apply Z.eqb_eq. lia.
  - destruct (IH v eq_refl) as (x & Hin & Hx). exists x. split; [auto|]. congruence.
Qed.

Lemma earliest_Some l a t : In (a, Some t) l -> is_Some (earliest l).
Proof.
  induction l as [|[b o] l IH]; simpl; [contradiction|].
  intros [[= -> ->]|H].
  - destruct (earliest l); simpl; eauto.
  - destruct (IH H) as [v ->]. destruct o; simpl; eauto.
Qed.

(** A select with a timer among its arms does not block for ever, and
    it takes one of its arms. *)
Lemma select_with_timer choice arms d :
  In (Timer, Some d) arms ->
  exists a, select choice arms = Some a /\ In a (map fst arms).
Proof.
  intros H. unfold select.
  destruct (earliest_Some arms Timer d H) as [t Ht]. rewrite Ht.
  destruct (earliest_fires arms t Ht) as (x & Hin & Hx).
  assert (Hne : In x (List.filter (firesAt t) arms)) by (apply filter_In; auto).
  set (ready := map fst (List.filter (firesAt t) arms)).
  assert (Hlen : (0 < length ready)%nat).
  { subst ready. rewrite length_map. destruct (List.filter (firesAt t) arms); [contradiction|simpl; lia]. }
  destruct (lookup_lt_is_Some_2 ready (choice mod length ready)%nat) as [a Ha].
  { apply Nat.mod_upper_bound. lia. }
  exists a. split; [exact Ha|].
  apply list_elem_of_lookup_2, list_elem_of_In in Ha. subst ready.
  apply in_map_iff in Ha as (y & <- & Hy). apply filter_In in Hy as [Hy _].
  apply in_map. exact Hy.
Qed.

(** *** The loop over the mappings *)

Lemma portLoop_all open portMappings : forall index,
  Forall (fun value => is_Some (LocalPort value)) portMappings ->
  portLoop open index portMappings
  = (warningsOf open portMappings,
     inr (map pairOf portMappings, map addressOf portMappings)).
Proof.
  induction portMappings as [|value rest IH]; intros index H; [reflexivity|].
  inversion H as [|? ? [lp Hlp] Hrest]; subst. simpl.
  rewrite Hlp, (IH (S index) Hrest). unfold warningsOf, pairOf, addressOf. simpl.
  rewrite Hlp. destruct (RemotePort value); reflexivity.
Qed.

Lemma portLoop_missing open before value after : forall index,
  Forall (fun value => is_Some (LocalPort value)) before ->
  LocalPort value = None ->
  portLoop open index (before ++ value :: after)
  = (warningsOf open before,
     inl (Errorf "port is not defined in portmapping %d"
                 [AInt (Z.of_nat (index + length before))])).
Proof.
  induction before as [|v before IH]; intros index H Hv.
  - simpl. rewrite Hv, Nat.add_0_r. reflexivity.
  - inversion H as [|? ? [lp Hlp] Hrest]; subst.
    cbn [app portLoop]. rewrite Hlp, (IH (S index) Hrest Hv).
    unfold warningsOf. cbn [flat_map]. rewrite Hlp.
    replace (index + length (v :: before))%nat with (S index + length before)%nat
      by (cbn [length]; lia).
    reflexivity.
Qed.

Lemma warningsOf_only_warn open portMappings :
  Forall (fun ev => exists format args, ev = LogWarnf format args)
         (warningsOf open portMappings).
Proof.
  unfold warningsOf. induction portMappings as [|value rest IH]; simpl; [constructor|].
  apply Forall_app. split; [|exact IH].
  destruct (LocalPort value) as [lp|]; [|constructor].
  destruct (open lp); repeat constructor. eauto.
Qed.

(** *** startForwarding up to the select *)

Lemma startForwarding_race e pod name portMappings :
  reachesRace e pod portMappings ->
  startForwarding e name portMappings
  = match select (pick e) (race e) with
    | Some CtxDone => (established e pod portMappings, Return None)
    | Some Ready =>
        (established e pod portMappings
         ++ [LogDonef "Port forwarding started on %s (%s/%s)"
               [AStr (Go.Join (map pairOf portMappings) ", ");
                AStr (Namespace pod); AStr (PodName pod)];
             GoWatcher],
         Return None)
    | Some ErrorSignal =>
        (established e pod portMappings,
         Return (Wrap (errorAt e ≫= snd) "forward ports"))
    | Some Timer =>
        (established e pod portMappings,
         Return (Some (Errorf "Timeout waiting for port forwarding to start" [])))
    | None => (established e pod portMappings, Block)
    end.
Proof.
  intros (Hd & Hs & Hp & Hc). unfold startForwarding.
  rewrite Hd, Hs, (portLoop_all _ _ 0%nat Hp), Hc. reflexivity.
Qed.

(** [startForwarding] always returns: its select has a timer. *)
Lemma startForwarding_returns e name portMappings :
  exists err, snd (startForwarding e name portMappings) = Return err.
Proof.
  unfold startForwarding.
  destruct (isDone e); [eauto|].
  destruct (selected e) as [err|[pod|]]; simpl; eauto.
  destruct (portLoop (portOpen e) 0 portMappings) as [evs [err|[ports addresses]]]; eauto.
  destruct (created e); eauto.
  destruct (select_with_timer (pick e)
              [(CtxDone, cancelledAt e); (Ready, readyAt e);
               (ErrorSignal, fst <$> errorAt e); (Timer, Some (20 * Go.Second))]
              (20 * Go.Second)) as (a & -> & _); [simpl; auto|].
  destruct a; simpl; eauto.
Qed.

(** C4: once the forwarder has been started the outcome is decided by
    the arm of the select that fires first: cancellation gives a clean
    return; readiness gives success, with the confirmation that names
    the port pairs and the namespace and name of the pod; an error on
    the error channel is returned wrapped; and when none of the three
    has fired after twenty seconds the call fails with the timeout
    error. *)
Theorem startForwarding_race_outcome e pod name portMappings :
  reachesRace e pod portMappings ->
  (forall t, firesFirst CtxDone t (race e) ->
     startForwarding e name portMappings
     = (established e pod portMappings, Return None))
  /\ (forall t, firesFirst Ready t (race e) ->
       startForwarding e name portMappings
       = (established e pod portMappings
          ++ [LogDonef "Port forwarding started on %s (%s/%s)"
                [AStr (Go.Join (map pairOf portMappings) ", ");
                 AStr (Namespace pod); AStr (PodName pod)];
              GoWatcher],
          Return None))
  /\ (forall t err, firesFirst ErrorSignal t (race e) ->
       errorAt e = Some (t, Some err) ->
       startForwarding e name portMappings
       = (established e pod portMappings, Return (Some (Wrapped err "forward ports"))))
  /\ (later (20 * Go.Second) (CtxDone, cancelledAt e) ->
      later (20 * Go.Second) (Ready, readyAt e) ->
      later (20 * Go.Second) (ErrorSignal, fst <$> errorAt e) ->
      startForwarding e name portMappings
      = (established e pod portMappings,
         Return (Some (Errorf "Timeout waiting for port forwarding to start" [])))).
Proof.
  intros Hr. rewrite (startForwarding_race e pod name portMappings Hr).
  repeat split.
  - intros t H. rewrite (select_first _ _ _ _ H). reflexivity.
  - intros t H. rewrite (select_first _ _ _ _ H). reflexivity.
  - intros t err H He. rewrite (select_first _ _ _ _ H), He. reflexivity.
  - intros Hc Hy He.
    rewrite (select_first (pick e) Timer (20 * Go.Second) (race e)); [reflexivity|].
    exists [(CtxDone, cancelledAt e); (Ready, readyAt e); (ErrorSignal, fst <$> errorAt e)], [].
    split; [reflexivity|]. split; repeat constructor; assumption.
Qed.

(** C5: a mapping without local port fails the call at once, with the
    error that names its index and before the forwarder is created.
    When every mapping has its local port, the pairs and addresses
    handed to the forwarder are those of the specification (remote port
    defaulting to the local port, address to "localhost"), whatever the
    probe of the local ports says: an occupied port adds a warning to
    the log and nothing else. *)
Theorem port_mappings_processed e pod name :
  isDone e = false -> selected e = inr (Some pod) ->
  (forall before value after,
      Forall (fun v => is_Some (LocalPort v)) before -> LocalPort value = None ->
      startForwarding e name (before ++ value :: after)
      = (warningsOf (portOpen e) before,
         Return (Some (Errorf "port is not defined in portmapping %d"
                              [AInt (Z.of_nat (length before))]))))
  /\ (forall portMappings,
        Forall (fun v => is_Some (LocalPort v)) portMappings ->
        portLoop (portOpen e) 0 portMappings
        = (warningsOf (portOpen e) portMappings,
           inr (map pairOf portMappings, map addressOf portMappings))
        /\ In (NewPortForwarder pod (map pairOf portMappings) (map addressOf portMappings))
              (fst (startForwarding e name portMappings)))
  /\ (forall value lp,
        LocalPort value = Some lp ->
        (RemotePort value = None -> pairOf value = Go.Itoa lp +:+ ":" +:+ Go.Itoa lp)
        /\ (forall rp, RemotePort value = Some rp ->
              pairOf value = Go.Itoa lp +:+ ":" +:+ Go.Itoa rp)
        /\ (BindAddress value = ""%string -> addressOf value = "localhost"%string)
        /\ (BindAddress value <> ""%string -> addressOf value = BindAddress value))
  /\ map pairOf [port8080] = ["8080:8080"%string]
     /\ map addressOf [port8080] = ["localhost"%string].
Proof.
  intros Hd Hs. split; [|split; [|split]].
  - intros before value after Hb Hv. unfold startForwarding.
    rewrite Hd, Hs, (portLoop_missing _ before value after 0%nat Hb Hv). reflexivity.
  - intros portMappings Hp. split; [apply portLoop_all, Hp|].
    unfold startForwarding. rewrite Hd, Hs, (portLoop_all _ _ 0%nat Hp).
    destruct (created e).
    + simpl. apply in_or_app. right. simpl. auto.
    + destruct (select _ _) as [[| | |]|]; simpl;
        rewrite <- ?app_assoc; apply in_or_app; right; simpl; auto.
  - intros value lp Hl. unfold pairOf, addressOf. rewrite Hl. repeat split.
    + intros ->. reflexivity.
    + intros rp ->. reflexivity.
    + intros ->. reflexivity.
    + intros Hne. apply String.eqb_neq in Hne. rewrite Hne. reflexivity.
  - split; reflexivity.
Qed.

(** *** The watcher *)

Lemma filter_none {A} (f : A -> bool) l :
  Forall (fun x => f x = false) l -> List.filter f l = [].
Proof. induction 1 as [|x l Hx _ IH]; simpl; [reflexivity|]. rewrite Hx. exact IH. Qed.

Lemma portLoop_quiet open portMappings : forall index,
  Forall (fun ev => isRestartLog ev = false) (fst (portLoop open index portMappings)).
Proof.
  induction portMappings as [|value rest IH]; intros index; simpl; [constructor|].
  destruct (LocalPort value) as [lp|]; [|constructor].
  specialize (IH (S index)). destruct (portLoop open (S index) rest) as [evs r]. simpl in *.
  apply Forall_app. split; [|exact IH].
  destruct (open lp); repeat constructor.
Qed.

Lemma startForwarding_quiet e name portMappings :
  Forall (fun ev => isRestartLog ev = false) (fst (startForwarding e name portMappings)).
Proof.
  unfold startForwarding.
  destruct (isDone e); [constructor|].
  destruct (selected e) as [err|[pod|]]; simpl; try constructor.
  pose proof (portLoop_quiet (portOpen e) portMappings 0%nat) as Hq.
  destruct (portLoop (portOpen e) 0 portMappings) as [evs [err|[ports addresses]]];
    simpl in *; [exact Hq|].
  destruct (created e); simpl.
  - apply Forall_app. split; [exact Hq|repeat constructor].
  - destruct (select _ _) as [[| | |]|]; simpl;
      repeat (apply Forall_app; split); try exact Hq; repeat constructor.
Qed.

Lemma retryLoop_quiet name portMappings script :
  Forall (fun ev => isRestartLog ev = false) (fst (retryLoop name portMappings script)).
Proof.
  induction script as [|r script IH]; simpl; [constructor|].
  pose proof (startForwarding_quiet (attemptEnv r) name portMappings) as Hq.
  destruct (startForwarding (attemptEnv r) name portMappings) as [evs [[err|]|]];
    simpl in *; try exact Hq.
  destruct (select _ _) as [a|]; simpl.
  - destruct (retryLoop name portMappings script) as [tr st]. simpl in IH.
    destruct a; simpl;
      repeat (apply Forall_app; split); try exact Hq; repeat constructor; exact IH.
  - apply Forall_app. split; [exact Hq|repeat constructor].
Qed.

Lemma retryLoop_shape name portMappings script :
  retryShape name portMappings script (retryLoop name portMappings script).
Proof.
  induction script as [|r script IH].
  - exists [], []. simpl. repeat split; auto.
  - simpl.
    destruct (startForwarding_returns (attemptEnv r) name portMappings) as [out Hout].
    destruct (startForwarding (attemptEnv r) name portMappings) as [evs o] eqn:Esf.
    simpl in Hout. subst o.
    destruct out as [err|].
    + destruct (select_with_timer (waitPick r) (waitRace r) (15 * Go.Second))
        as (a & Ha & Hin); [simpl; auto|].
      unfold waitRace in Ha. rewrite Ha.
      destruct a; simpl in Hin; try (exfalso; intuition congruence).
      * exists [], (failedPass name portMappings r err ++ stopPortForwarding name).
        simpl. unfold failedPass. rewrite Esf. simpl.
        split; [reflexivity|]. split; [lia|]. split; [constructor|].
        exists r. split; [reflexivity|]. right. exists err.
        rewrite Esf. simpl. auto.
      * destruct IH as (errs & final & Htr & Hlen & Hf & Hst).
        destruct (retryLoop name portMappings script) as [tr st]. simpl in *.
        exists (err :: errs), final. simpl. unfold failedPass at 1. rewrite Esf. simpl.
        split; [rewrite Htr, <- !app_assoc; reflexivity|].
        split; [lia|]. split; [constructor; [rewrite Esf; auto|exact Hf]|].
        destruct st; try exact Hst.
        destruct Hst as [-> Hl]. auto.
    + exists [], evs. simpl. split; [reflexivity|]. split; [lia|]. split; [constructor|].
      exists r. split; [reflexivity|]. left. rewrite Esf. auto.
Qed.

(** C6: after a successful establishment the watcher is handed to the
    task tree.  If the context is cancelled first it closes the
    forwarder, runs the stop hooks, kills the tree and returns.  If the
    forwarder reports an error first, the watcher logs it, once, closes
    the forwarder, runs the restart hooks, and retries: every failed
    attempt is followed by a wait of fifteen seconds, and the loop ends
    with the first attempt that returns nil or with the cancellation of
    the context during a wait. *)
Theorem watcher_recovers name portMappings :
  (forall e pod t,
      reachesRace e pod portMappings -> firesFirst Ready t (race e) ->
      snd (startForwarding e name portMappings) = Return None
      /\ last (fst (startForwarding e name portMappings)) = Some GoWatcher)
  /\ (forall cancelled failed choice script t,
        firesFirst CtxDone t [(CtxDone, cancelled); (ErrorSignal, fst <$> failed)] ->
        watcher cancelled failed choice name portMappings script
        = ([Close; LogExecuteHooks "stop:portForwarding" name None; Kill;
            LogDone "Stopped port forwarding"], Finished))
  /\ (forall cancelled failed choice script t err,
        firesFirst ErrorSignal t [(CtxDone, cancelled); (ErrorSignal, fst <$> failed)] ->
        failed = Some (t, Some err) ->
        watcher cancelled failed choice name portMappings script
        = ([LogErrorf "Portforwarding restarting, because: %v" [AErr err];
            PrintPodError; Close;
            LogExecuteHooks "restart:portForwarding" name (Some err)]
           ++ fst (retryLoop name portMappings script),
           snd (retryLoop name portMappings script))
        /\ List.filter isRestartLog
             (fst (watcher cancelled failed choice name portMappings script))
           = [LogErrorf "Portforwarding restarting, because: %v" [AErr err]]
        /\ retryShape name portMappings script (retryLoop name portMappings script)).
Proof.
  split; [|split].
  - intros e pod t Hr Hf.
    rewrite (startForwarding_race e pod name portMappings Hr), (select_first _ _ _ _ Hf).
    cbn [fst snd]. split; [reflexivity|].
    rewrite last_app. reflexivity.
  - intros cancelled failed choice script t H. unfold watcher.
    rewrite (select_first _ _ _ _ H). reflexivity.
  - intros cancelled failed choice script t err H ->. unfold watcher.
    rewrite (select_first _ _ _ _ H). simpl.
    destruct (retryLoop name portMappings script) as [tr st] eqn:E. simpl.
    split; [reflexivity|]. split.
    + pose proof (retryLoop_quiet name portMappings script) as Hq. rewrite E in Hq.
      simpl in Hq. rewrite (filter_none _ _ Hq). reflexivity.
    + rewrite <- E. apply retryLoop_shape.
Qed.

(** *** The examples *)

Lemma reachesRace_example e :
  isDone e = false -> selected e = inr (Some examplePod) -> created e = None ->
  reachesRace e examplePod [port8080].
Proof.
  intros Hd Hs Hc. split; [exact Hd|]. split; [exact Hs|]. split; [|exact Hc].
  repeat constructor. simpl. eauto.
Qed.

Lemma startForwarding_race_outcome_witness :
  startForwarding cancelledEnv "api" [port8080]
  = (established cancelledEnv examplePod [port8080], Return None)
  /\ startForwarding readyEnv "api" [port8080]
     = (established readyEnv examplePod [port8080]
        ++ [LogDonef "Port forwarding started on %s (%s/%s)"
              [AStr "8080:8080"; AStr "dev"; AStr "api-0"]; GoWatcher],
        Return None)
  /\ startForwarding failingEnv "api" [port8080]
     = (established failingEnv examplePod [port8080],
        Return (Some (Wrapped brokenPipe "forward ports")))
  /\ startForwarding silentEnv "api" [port8080]
     = (established silentEnv examplePod [port8080],
        Return (Some (Errorf "Timeout waiting for port forwarding to start" []))).
Proof.
  split; [|split; [|split]].
  - apply (startForwarding_race_outcome cancelledEnv examplePod "api" [port8080]
             (reachesRace_example cancelledEnv eq_refl eq_refl eq_refl)) with (t := 5).
    exists [], [(Ready, Some Go.Second); (ErrorSignal, None); (Timer, Some (20 * Go.Second))].
    split; [reflexivity|]. split; repeat constructor.
  - apply (startForwarding_race_outcome readyEnv examplePod "api" [port8080]
             (reachesRace_example readyEnv eq_refl eq_refl eq_refl)) with (t := Go.Second).
    exists [(CtxDone, None)], [(ErrorSignal, None); (Timer, Some (20 * Go.Second))].
    split; [reflexivity|]. split; repeat constructor.
  - apply (startForwarding_race_outcome failingEnv examplePod "api" [port8080]
             (reachesRace_example failingEnv eq_refl eq_refl eq_refl)) with (t := 7).
    + exists [(CtxDone, None); (Ready, None)], [(Timer, Some (20 * Go.Second))].
      split; [reflexivity|]. split; repeat constructor.
    + reflexivity.
  - apply (startForwarding_race_outcome silentEnv examplePod "api" [port8080]
             (reachesRace_example silentEnv eq_refl eq_refl eq_refl)).
    + exact I.
    + reflexivity.
    + exact I.
Defined.

Lemma port_mappings_processed_witness :
  startForwarding readyEnv "api" [port8080; noPort]
  = ([LogWarnf "Seems like port %d is already in use. Is another application using that port?"
               [AInt 8080]],
     Return (Some (Errorf "port is not defined in portmapping %d" [AInt 1])))
  /\ portLoop (portOpen readyEnv) 0 [port8080]
     = (warningsOf (portOpen readyEnv) [port8080],
        inr (["8080:8080"%string], ["localhost"%string])).
Proof.
  destruct (port_mappings_processed readyEnv examplePod "api" eq_refl eq_refl)
    as (H1 & H2 & _).
  split.
  - apply (H1 [port8080] noPort []); [repeat constructor; simpl; eauto|reflexivity].
  - apply (H2 [port8080]). repeat constructor. simpl. eauto.
Defined.

Lemma watcher_recovers_witness :
  watcher None (Some (7, Some brokenPipe)) 0 "api" [port8080] exampleRetries
  = ([LogErrorf "Portforwarding restarting, because: %v" [AErr brokenPipe];
      PrintPodError; Close;
      LogExecuteHooks "restart:portForwarding" "api" (Some brokenPipe)]
     ++ fst (retryLoop "api" [port8080] exampleRetries),
     snd (retryLoop "api" [port8080] exampleRetries))
  /\ List.filter isRestartLog
       (fst (watcher None (Some (7, Some brokenPipe)) 0 "api" [port8080] exampleRetries))
     = [LogErrorf "Portforwarding restarting, because: %v" [AErr brokenPipe]]
  /\ retryShape "api" [port8080] exampleRetries (retryLoop "api" [port8080] exampleRetries).
Proof.
  destruct (watcher_recovers "api" [port8080]) as (_ & _ & H).
  apply (H None (Some (7, Some brokenPipe)) 0%nat exampleRetries 7 brokenPipe).
  - exists [(CtxDone, None)], []. split; [reflexivity|]. split; repeat constructor.
  - reflexivity.
Defined.

(** The run of the example: the attempt that fails, the wait, and the
    attempt that brings the forwarding back with a watcher of its own. *)
Example watcher_example :
  watcher None (Some (7, Some brokenPipe)) 0 "api" [port8080] exampleRetries
  = ([LogErrorf "Portforwarding restarting, because: %v" [AErr brokenPipe];
      PrintPodError; Close;
      LogExecuteHooks "restart:portForwarding" "api" (Some brokenPipe);
      NewPortForwarder examplePod ["8080:8080"%string] ["localhost"%string];
      GoForwardPorts;
      LogExecuteHooks "restart:portForwarding" "api"
        (Some (Wrapped brokenPipe "forward ports"));
      LogErrorf "Error restarting port-forwarding: %v"
        [AErr (Wrapped brokenPipe "forward ports")];
      LogErrorf "Will try again in 15 seconds" [];
      Waited (15 * Go.Second);
      LogWarnf "Seems like port %d is already in use. Is another application using that port?"
        [AInt 8080];
      NewPortForwarder examplePod ["8080:8080"%string] ["localhost"%string];
      GoForwardPorts;
      LogDonef "Port forwarding started on %s (%s/%s)"
        [AStr "8080:8080"; AStr "dev"; AStr "api-0"];
      GoWatcher],
     Finished).
Proof. vm_compute. reflexivity. Qed.

(** *** StartPortForwarding *)

(** X28: For a dev pod whose only dev container is the inline one the
    members are those of the specification. *)
Lemma StartPortForwarding_inline devPod :
  Containers devPod = [] ->
  StartPortForwarding true devPod = inr (specMembers devPod).
Proof.
  intros H. unfold StartPortForwarding, specMembers, EachDevContainer. rewrite H. simpl.
  destruct (Forward devPod), (PortMappingsReverse (Inline devPod)); reflexivity.
Qed.

(** In general the guard of the reverse members looks at the mappings
    of the inline container, not at those of the container visited. *)
Lemma StartPortForwarding_members devPod :
  StartPortForwarding true devPod
  = inr ((match Forward devPod with
          | [] => []
          | _ => [ForwardMember (Name devPod) (Forward devPod)]
          end)
         ++ match PortMappingsReverse (Inline devPod) with
            | [] => []
            | _ => map (fun c => ReverseMember (Name devPod) (Arch c)
                                   (PortMappingsReverse c) (Container c))
                       (EachDevContainer devPod)
            end).
Proof.
  unfold StartPortForwarding. simpl. f_equal. f_equal.
  - destruct (Forward devPod); reflexivity.
  - destruct (PortMappingsReverse (Inline devPod)); simpl.
    + induction (EachDevContainer devPod); simpl; auto.
    + induction (EachDevContainer devPod) as [|c cs IH]; simpl; [reflexivity|].
      rewrite IH. reflexivity.
Qed.

(** C7: for a dev pod with dev containers of which "backend" has a
    reverse mapping, the specification asks for one reverse set, for
    "backend"; the code starts none, because the pod has no reverse
    mappings inline.  With the inline container alone both agree. *)
Theorem reverse_set_of_container_skipped :
  StartPortForwarding true twoContainers = inr []
  /\ specMembers twoContainers = [ReverseMember "api" "arm64" [port9000] "backend"]
  /\ StartPortForwarding true oneContainer = inr (specMembers oneContainer)
  /\ specMembers oneContainer
     = [ForwardMember "api" [port8080]; ReverseMember "api" "arm64" [port9000] "main"].
Proof. repeat split; reflexivity. Qed.


(** *** More on select *)

Lemma select_sound choice arms a :
  select choice arms = Some a ->
  exists t, In (a, Some t) arms /\ earliest arms = Some t.
Proof.
  unfold select. destruct (earliest arms) as [t|] eqn:Et; [|discriminate].
  intros H. apply list_elem_of_lookup_2, list_elem_of_In, in_map_iff in H
    as ([b o] & Hb & Hin).
  simpl in Hb. subst b. apply filter_In in Hin as [Hin Hf].
  unfold firesAt in Hf. simpl in Hf. destruct o as [u|]; [|discriminate].
  apply Z.eqb_eq in Hf. subst u. eauto.
Qed.

Lemma earliest_le arms t a u :
  earliest arms = Some t -> In (a, Some u) arms -> t <= u.
Proof.
  revert t. induction arms as [|[b o] arms IH]; intros t Ht Hin; [contradiction|].
  simpl in Ht. destruct Hin as [[= -> ->]|Hin].
  - destruct (earliest arms); simpl in Ht; injection Ht as <-; lia.
  - destruct (earliest arms) as [v|] eqn:Ev.
    + specialize (IH v eq_refl Hin). destruct o; simpl in Ht; injection Ht as <-; lia.
    + destruct (earliest_Some arms a u Hin) as [v Hv]. congruence.
Qed.

(** *** More on startForwarding *)

Lemma has_local_or_first_missing (portMappings : list PortMapping) :
  Forall (fun v => is_Some (LocalPort v)) portMappings
  \/ exists before value after,
       portMappings = before ++ value :: after
       /\ Forall (fun v => is_Some (LocalPort v)) before
       /\ LocalPort value = None.
Proof.
  induction portMappings as [|v rest IH]; [left; constructor|].
  destruct (LocalPort v) as [lp|] eqn:Hv.
  - destruct IH as [IH|(before & value & after & -> & Hb & Hn)].
    + left. constructor; eauto.
    + right. exists (v :: before), value, after.
      split; [reflexivity|]. split; [constructor; eauto|exact Hn].
  - right. exists [], v, rest. split; [reflexivity|]. split; [constructor|exact Hv].
Qed.

Lemma warningsOf_ofForwarding open portMappings :
  Forall (fun ev => ofForwarding ev = true) (warningsOf open portMappings).
Proof.
  eapply Forall_impl; [apply warningsOf_only_warn|].
  intros ev (format & args & ->). reflexivity.
Qed.

Lemma portLoop_events open portMappings index :
  exists k, fst (portLoop open index portMappings) = warningsOf open (take k portMappings).
Proof.
  destruct (has_local_or_first_missing portMappings)
    as [H|(before & value & after & -> & Hb & Hn)].
  - exists (length portMappings). rewrite firstn_all, (portLoop_all _ _ index H). reflexivity.
  - exists (length before). rewrite (portLoop_missing _ _ _ _ index Hb Hn).
    rewrite take_app_length. reflexivity.
Qed.

Lemma startForwarding_ofForwarding e name portMappings :
  Forall (fun ev => ofForwarding ev = true) (fst (startForwarding e name portMappings)).
Proof.
  unfold startForwarding.
  destruct (isDone e); [constructor|].
  destruct (selected e) as [err|[pod|]]; simpl; try constructor.
  destruct (portLoop_events (portOpen e) portMappings 0%nat) as [k Hk].
  pose proof (warningsOf_ofForwarding (portOpen e) (take k portMappings)) as Hq.
  rewrite <- Hk in Hq.
  destruct (portLoop (portOpen e) 0 portMappings) as [evs [err|[ports addresses]]];
    simpl in *; [exact Hq|].
  destruct (created e); simpl.
  - apply Forall_app. split; [exact Hq|repeat constructor].
  - destruct (select _ _) as [[| | |]|]; simpl;
      repeat (apply Forall_app; split); try exact Hq; repeat constructor.
Qed.

(** X20: The forwarder is created exactly when the context is live, a pod is
    selected and every mapping has its local port; it then gets one
    pair and one address per mapping, in the order of the mappings. *)
Theorem forwarder_created_iff e name portMappings pod ports addresses :
  In (NewPortForwarder pod ports addresses) (fst (startForwarding e name portMappings))
  <-> isDone e = false /\ selected e = inr (Some pod)
      /\ Forall (fun v => is_Some (LocalPort v)) portMappings
      /\ ports = map pairOf portMappings /\ addresses = map addressOf portMappings.
Proof.
  split.
  - unfold startForwarding.
    destruct (isDone e); [intros []|].
    destruct (selected e) as [err|[pod'|]]; simpl; try (intros []).
    destruct (has_local_or_first_missing portMappings)
      as [H|(before & value & after & -> & Hb & Hn)].
    + rewrite (portLoop_all _ _ 0%nat H).
      assert (G : forall l,
                 In (NewPortForwarder pod ports addresses)
                    (warningsOf (portOpen e) portMappings
                     ++ NewPortForwarder pod' (map pairOf portMappings)
                          (map addressOf portMappings) :: l) ->
                 (forall ev, In ev l -> ev <> NewPortForwarder pod ports addresses) ->
                 false = false /\ @inr error _ (Some pod') = inr (Some pod)
                 /\ Forall (fun v => is_Some (LocalPort v)) portMappings
                 /\ ports = map pairOf portMappings
                 /\ addresses = map addressOf portMappings).
      { intros l Hin Hl. apply in_app_or in Hin as [Hin|[Hin|Hin]].
        - pose proof (warningsOf_only_warn (portOpen e) portMappings) as W.
          rewrite Forall_forall in W. apply list_elem_of_In in Hin.
          destruct (W _ Hin) as (f & a & Hf). discriminate.
        - injection Hin as -> -> ->. auto.
        - exfalso. exact (Hl _ Hin eq_refl). }
      destruct (created e).
      * intros Hin. apply (G [] Hin). intros ev [].
      * destruct (select _ _) as [[| | |]|]; simpl; rewrite <- ?app_assoc; simpl;
          intros Hin; apply (G _ Hin); simpl; intros ev Hev;
          repeat (destruct Hev as [<-|Hev]; [discriminate|]); contradiction.
    + rewrite (portLoop_missing _ _ _ _ 0%nat Hb Hn). simpl. intros Hin.
      pose proof (warningsOf_only_warn (portOpen e) before) as W.
      rewrite Forall_forall in W. apply list_elem_of_In in Hin.
      destruct (W _ Hin) as (f & a & Hf). discriminate.
  - intros (Hd & Hs & Hp & -> & ->). unfold startForwarding.
    rewrite Hd, Hs, (portLoop_all _ _ 0%nat Hp).
    destruct (created e).
    + simpl. apply in_or_app. right. simpl. auto.
    + destruct (select _ _) as [[| | |]|]; simpl;
        rewrite <- ?app_assoc; apply in_or_app; right; simpl; auto.
Qed.

(** X21: [startForwarding] never blocks for ever: its select has a timer.
    And it reports the timeout only if none of the three signals has
    fired before the twenty seconds are over. *)
Theorem startForwarding_times_out_only_in_silence e pod name portMappings :
  reachesRace e pod portMappings ->
  (exists err, snd (startForwarding e name portMappings) = Return err)
  /\ (snd (startForwarding e name portMappings)
      = Return (Some (Errorf "Timeout waiting for port forwarding to start" [])) ->
      (forall t, cancelledAt e = Some t -> 20 * Go.Second <= t)
      /\ (forall t, readyAt e = Some t -> 20 * Go.Second <= t)
      /\ (forall t v, errorAt e = Some (t, v) -> 20 * Go.Second <= t)).
Proof.
  intros Hr. split; [apply startForwarding_returns|].
  rewrite (startForwarding_race e pod name portMappings Hr).
  destruct (select (pick e) (race e)) as [a|] eqn:Hs; [|discriminate].
  destruct a; simpl; try discriminate.
  - destruct (errorAt e ≫= snd); discriminate.
  - intros _. destruct (select_sound _ _ _ Hs) as (t & Hin & Ht).
    assert (t = 20 * Go.Second).
    { unfold race in Hin. simpl in Hin.
      destruct Hin as [H|[H|[H|[H|[]]]]]; try discriminate. injection H as <-. reflexivity. }
    subst t. repeat split.
    + intros t Hc. apply (earliest_le (race e) _ CtxDone t Ht).
      unfold race. rewrite Hc. simpl. auto.
    + intros t Hc. apply (earliest_le (race e) _ Ready t Ht).
      unfold race. rewrite Hc. simpl. auto.
    + intros t v Hc. apply (earliest_le (race e) _ ErrorSignal t Ht).
      unfold race. rewrite Hc. simpl. auto.
Qed.

Lemma startForwarding_times_out_only_in_silence_witness :
  (exists err, snd (startForwarding silentEnv "api" [port8080]) = Return err)
  /\ (snd (startForwarding silentEnv "api" [port8080])
      = Return (Some (Errorf "Timeout waiting for port forwarding to start" [])) ->
      (forall t, cancelledAt silentEnv = Some t -> 20 * Go.Second <= t)
      /\ (forall t, readyAt silentEnv = Some t -> 20 * Go.Second <= t)
      /\ (forall t v, errorAt silentEnv = Some (t, v) -> 20 * Go.Second <= t)).
Proof.
  apply (startForwarding_times_out_only_in_silence silentEnv examplePod "api" [port8080]).
  apply reachesRace_example; reflexivity.
Defined.

(** X22: A watcher is handed to the task tree only by a call that succeeded
    through readiness: the call then returns nil, has logged the
    confirmation, and the readiness signal was among the first to fire.
    A call that returns an error never leaves a watcher behind. *)
Theorem watcher_only_after_readiness e name portMappings :
  In GoWatcher (fst (startForwarding e name portMappings)) ->
  snd (startForwarding e name portMappings) = Return None
  /\ (exists args,
        In (LogDonef "Port forwarding started on %s (%s/%s)" args)
           (fst (startForwarding e name portMappings)))
  /\ exists t, readyAt e = Some t /\ t <= 20 * Go.Second
               /\ (forall u, cancelledAt e = Some u -> t <= u)
               /\ (forall u v, errorAt e = Some (u, v) -> t <= u).
Proof.
  unfold startForwarding.
  destruct (isDone e); [intros []|].
  destruct (selected e) as [err|[pod|]]; simpl; try (intros []).
  destruct (portLoop_events (portOpen e) portMappings 0%nat) as [k Hk].
  pose proof (warningsOf_only_warn (portOpen e) (take k portMappings)) as W.
  rewrite <- Hk in W. rewrite Forall_forall in W.
  assert (Hw : forall evs l, (forall ev, ev ∈ evs -> exists f a, ev = LogWarnf f a) ->
                 In GoWatcher (evs ++ l) -> In GoWatcher l).
  { intros evs l He Hin. apply in_app_or in Hin as [Hin|Hin]; [|exact Hin].
    apply list_elem_of_In in Hin. destruct (He _ Hin) as (f & a & Hf). discriminate. }
  destruct (portLoop (portOpen e) 0 portMappings) as [evs [err|[ports addresses]]];
    simpl in *.
  { intros Hin. apply list_elem_of_In in Hin. destruct (W _ Hin) as (f & a & Hf).
    discriminate. }
  destruct (created e).
  { simpl. intros Hin. apply (Hw _ _ W) in Hin. simpl in Hin. intuition discriminate. }
  destruct (select _ _) as [a|] eqn:Hs.
  - destruct a; simpl;
      try (intros Hin; apply (Hw _ _ W) in Hin; simpl in Hin; intuition discriminate).
    intros _. split; [reflexivity|]. split.
    + eexists. rewrite <- app_assoc. apply in_or_app. right. simpl. eauto.
    + destruct (select_sound _ _ _ Hs) as (t & Hin & Ht).
      exists t. simpl in Hin.
      destruct Hin as [H|[H|[H|[H|[]]]]]; try discriminate. injection H as Hy.
      split; [exact Hy|]. split; [|split].
      * apply (earliest_le _ _ Timer _ Ht). simpl. auto.
      * intros u Hc. apply (earliest_le _ _ CtxDone _ Ht). rewrite Hc. simpl. auto.
      * intros u v Hc. apply (earliest_le _ _ ErrorSignal _ Ht). rewrite Hc. simpl. auto.
  - simpl. intros Hin. apply (Hw _ _ W) in Hin. simpl in Hin. intuition discriminate.
Qed.

Lemma watcher_only_after_readiness_witness :
  snd (startForwarding readyEnv "api" [port8080]) = Return None
  /\ (exists args,
        In (LogDonef "Port forwarding started on %s (%s/%s)" args)
           (fst (startForwarding readyEnv "api" [port8080])))
  /\ exists t, readyAt readyEnv = Some t /\ t <= 20 * Go.Second
               /\ (forall u, cancelledAt readyEnv = Some u -> t <= u)
               /\ (forall u v, errorAt readyEnv = Some (u, v) -> t <= u).
Proof.
  apply (watcher_only_after_readiness readyEnv "api" [port8080]).
  vm_compute. auto 10.
Defined.


(** X23: The ways in which [startForwarding] ends before the select: with a
    context that is done, or no pod to select, it does nothing and
    returns nil; an error of the selector is returned wrapped; and when
    the forwarder cannot be created, the error is returned and neither
    the forwarding goroutine nor a watcher is started. *)
Theorem startForwarding_early_exits e name portMappings :
  (isDone e = true -> startForwarding e name portMappings = ([], Return None))
  /\ (isDone e = false -> selected e = inr None ->
      startForwarding e name portMappings = ([], Return None))
  /\ (forall err, isDone e = false -> selected e = inl err ->
        startForwarding e name portMappings
        = ([], Return (Some (Wrapped err "error selecting pod"))))
  /\ (forall pod err,
        isDone e = false -> selected e = inr (Some pod) ->
        Forall (fun v => is_Some (LocalPort v)) portMappings ->
        created e = Some err ->
        startForwarding e name portMappings
        = (warningsOf (portOpen e) portMappings
           ++ [NewPortForwarder pod (map pairOf portMappings) (map addressOf portMappings)],
           Return (Some (Errorf "Error starting port forwarding: %v" [AErr err])))).
Proof.
  unfold startForwarding. repeat split.
  - intros ->. reflexivity.
  - intros -> ->. reflexivity.
  - intros err -> ->. reflexivity.
  - intros pod err -> -> Hp ->. rewrite (portLoop_all _ _ 0%nat Hp). reflexivity.
Qed.

Lemma startForwarding_early_exits_witness :
  startForwarding noPodEnv "api" [port8080] = ([], Return None).
Proof.
  destruct (startForwarding_early_exits noPodEnv "api" [port8080]) as (_ & H & _).
  apply H; reflexivity.
Defined.

(** *** More on the watcher *)

Lemma filter_ofForwarding (f : event -> bool) l :
  (forall ev, ofForwarding ev = true -> f ev = false) ->
  Forall (fun ev => ofForwarding ev = true) l -> List.filter f l = [].
Proof.
  intros Hf H. apply filter_none. eapply Forall_impl; [exact H|]. exact Hf.
Qed.

Lemma select_not_cancelled choice arms :
  Forall (fun x => fst x = CtxDone -> snd x = None) arms ->
  select choice arms <> Some CtxDone.
Proof.
  intros H Hs. destruct (select_sound _ _ _ Hs) as (t & Hin & _).
  rewrite Forall_forall in H. apply list_elem_of_In in Hin.
  specialize (H _ Hin eq_refl). discriminate.
Qed.

(** X24: The watcher gives up quietly in three cases.  While neither the
    context is cancelled nor an error arrives it waits.  When the error
    channel delivers nil it returns without closing the forwarder or
    running a hook.  And a retry that finds the context done or no pod
    ends the loop at once: no forwarder is created, no watcher started,
    and the stop hooks are not run. *)
Theorem watcher_quiet_ends name portMappings script :
  (forall choice, watcher None None choice name portMappings script = ([], Watching))
  /\ (forall cancelled t choice,
        firesFirst ErrorSignal t [(CtxDone, cancelled); (ErrorSignal, Some t)] ->
        watcher cancelled (Some (t, None)) choice name portMappings script
        = ([], Finished))
  /\ (forall r,
        isDone (attemptEnv r) = true
        \/ (isDone (attemptEnv r) = false /\ selected (attemptEnv r) = inr None) ->
        retryLoop name portMappings (r :: script) = ([], Finished)).
Proof.
  split; [|split].
  - intros choice. reflexivity.
  - intros cancelled t choice H. unfold watcher. simpl.
    rewrite (select_first _ _ _ _ H). reflexivity.
  - intros r H. simpl. unfold startForwarding.
    destruct H as [Hd|[Hd Hs]]; rewrite Hd, ?Hs; reflexivity.
Qed.

Lemma watcher_quiet_ends_witness :
  watcher None (Some (7, None)) 0 "api" [port8080] exampleRetries = ([], Finished)
  /\ retryLoop "api" [port8080]
       ({| attemptEnv := noPodEnv; waitCancelledAt := None; waitPick := 0 |}
        :: exampleRetries) = ([], Finished).
Proof.
  destruct (watcher_quiet_ends "api" [port8080] exampleRetries) as (_ & H1 & H2).
  split.
  - apply (H1 None 7 0%nat).
    exists [(CtxDone, None)], []. split; [reflexivity|]. split; repeat constructor.
  - apply H2. right. split; reflexivity.
Defined.

Lemma retryLoop_counts name portMappings script :
  length (List.filter isRestartHook (fst (retryLoop name portMappings script)))
  = length (List.filter isRetryError (fst (retryLoop name portMappings script))).
Proof.
  induction script as [|r script IH]; simpl; [reflexivity|].
  pose proof (startForwarding_ofForwarding (attemptEnv r) name portMappings) as Hq.
  destruct (startForwarding (attemptEnv r) name portMappings) as [evs [[err|]|]];
    simpl in *.
  - assert (E1 : List.filter isRestartHook evs = [])
      by (apply filter_ofForwarding; [intros [] ?; try discriminate; reflexivity|exact Hq]).
    assert (E2 : List.filter isRetryError evs = [])
      by (apply filter_ofForwarding; [intros [] ?; try discriminate; reflexivity|exact Hq]).
    destruct (select _ _) as [a|]; simpl.
    + destruct (retryLoop name portMappings script) as [tr st]. simpl in IH.
      destruct a; simpl; rewrite !List.filter_app, E1, E2; simpl;
        rewrite ?IH; reflexivity.
    + rewrite !List.filter_app, E1, E2. reflexivity.
  - rewrite !(filter_ofForwarding _ evs); auto; intros [] ?; try discriminate; reflexivity.
  - rewrite !(filter_ofForwarding _ evs); auto; intros [] ?; try discriminate; reflexivity.
Qed.

(** X25: The restart hooks run once for the error that woke the watcher and
    once more after every retry that fails: in the trace of the watcher
    there is one call of them more than there are "Error restarting
    port-forwarding" lines. *)
Theorem restart_hooks_after_every_failure cancelled failed choice name portMappings script t err :
  firesFirst ErrorSignal t [(CtxDone, cancelled); (ErrorSignal, fst <$> failed)] ->
  failed = Some (t, Some err) ->
  length (List.filter isRestartHook
            (fst (watcher cancelled failed choice name portMappings script)))
  = S (length (List.filter isRetryError
                 (fst (watcher cancelled failed choice name portMappings script)))).
Proof.
  intros H ->. unfold watcher. rewrite (select_first _ _ _ _ H). simpl.
  pose proof (retryLoop_counts name portMappings script) as Hc.
  destruct (retryLoop name portMappings script) as [tr st]. simpl in *.
  rewrite Hc. reflexivity.
Qed.

Lemma restart_hooks_after_every_failure_witness :
  length (List.filter isRestartHook
            (fst (watcher None (Some (7, Some brokenPipe)) 0 "api" [port8080]
                    exampleRetries)))
  = S (length (List.filter isRetryError
                 (fst (watcher None (Some (7, Some brokenPipe)) 0 "api" [port8080]
                         exampleRetries)))).
Proof.
  apply (restart_hooks_after_every_failure None (Some (7, Some brokenPipe)) 0%nat "api"
           [port8080] exampleRetries 7 brokenPipe).
  - exists [(CtxDone, None)], []. split; [reflexivity|]. split; repeat constructor.
  - reflexivity.
Defined.

Lemma retryLoop_no_stop name portMappings script :
  Forall (fun r => waitCancelledAt r = None) script ->
  List.filter isStop (fst (retryLoop name portMappings script)) = [].
Proof.
  induction 1 as [|r script Hr _ IH]; simpl; [reflexivity|].
  pose proof (startForwarding_ofForwarding (attemptEnv r) name portMappings) as Hq.
  assert (E : List.filter isStop (fst (startForwarding (attemptEnv r) name portMappings)) = [])
    by (apply filter_ofForwarding; [intros [] ?; try discriminate; reflexivity|exact Hq]).
  destruct (startForwarding (attemptEnv r) name portMappings) as [evs [[err|]|]];
    simpl in *; try exact E.
  pose proof (select_not_cancelled (waitPick r)
                [(Timer, Some (15 * Go.Second)); (CtxDone, waitCancelledAt r)]) as Hn.
  destruct (select _ _) as [a|]; simpl.
  - destruct (retryLoop name portMappings script) as [tr st]. simpl in IH.
    destruct a; simpl; rewrite ?List.filter_app, ?E; simpl; rewrite ?IH; try reflexivity.
    exfalso. apply Hn; [|reflexivity].
    repeat constructor; simpl; [discriminate|intros _; exact Hr].
  - rewrite List.filter_app, E. reflexivity.
Qed.

(** X26: As long as the context is not cancelled the watcher never stops the
    forwarding: it runs no stop hook, does not kill the task tree and
    logs no "Stopped port forwarding". *)
Theorem no_stop_without_cancellation failed choice name portMappings script :
  Forall (fun r => waitCancelledAt r = None) script ->
  List.filter isStop (fst (watcher None failed choice name portMappings script)) = [].
Proof.
  intros H. unfold watcher.
  pose proof (select_not_cancelled choice [(CtxDone, None); (ErrorSignal, fst <$> failed)])
    as Hn.
  destruct (select _ _) as [a|]; [|reflexivity].
  destruct a; simpl.
  - exfalso. apply Hn; [|reflexivity]. repeat constructor; simpl; auto. discriminate.
  - destruct (failed ≫= snd); [|reflexivity].
    pose proof (retryLoop_no_stop name portMappings script H) as Hs.
    destruct (retryLoop name portMappings script) as [tr st]. exact Hs.
  - destruct (failed ≫= snd); [|reflexivity].
    pose proof (retryLoop_no_stop name portMappings script H) as Hs.
    destruct (retryLoop name portMappings script) as [tr st]. exact Hs.
  - destruct (failed ≫= snd); [|reflexivity].
    pose proof (retryLoop_no_stop name portMappings script H) as Hs.
    destruct (retryLoop name portMappings script) as [tr st]. exact Hs.
Qed.

Lemma no_stop_without_cancellation_witness :
  List.filter isStop
    (fst (watcher None (Some (7, Some brokenPipe)) 0 "api" [port8080] exampleRetries)) = [].
Proof.
  apply (no_stop_without_cancellation (Some (7, Some brokenPipe)) 0%nat "api" [port8080]
           exampleRetries).
  repeat constructor.
Defined.

(** *** The wrappers *)

(** X27: The hooks around the forwarding.  When the start hooks fail, their
    error is returned and the forwarding is not attempted.  Otherwise
    the wrapper returns nil exactly when the forwarding does; when the
    forwarding fails the error hooks run with its error, and their own
    error, if they fail, is returned in place of it.  The wrapper of
    the reverse forwarding does the same around
    [startReversePortForwarding]. *)
Theorem hooks_around_forwarding startHook errorHook e name portMappings :
  (forall pluginErr, startHook = Some pluginErr ->
     startPortForwardingWithHooks startHook errorHook e name portMappings
     = ([ExecuteHooks "start:portForwarding" name None], Return (Some pluginErr)))
  /\ (snd (startPortForwardingWithHooks startHook errorHook e name portMappings)
      = Return None
      <-> startHook = None /\ snd (startForwarding e name portMappings) = Return None)
  /\ (forall err,
        In (ExecuteHooks "error:portForwarding" name (Some err))
           (fst (startPortForwardingWithHooks startHook errorHook e name portMappings))
        <-> startHook = None
            /\ snd (startForwarding e name portMappings) = Return (Some err))
  /\ (forall err,
        startHook = None ->
        snd (startForwarding e name portMappings) = Return (Some err) ->
        snd (startPortForwardingWithHooks startHook errorHook e name portMappings)
        = Return (Some (default err errorHook)))
  /\ (forall started arch,
        let r := startReversePortForwardingWithHooks startHook errorHook started
                   name arch portMappings in
        (snd r = None <-> startHook = None /\ started = None)
        /\ (In (StartReverse name arch portMappings) (fst r) <-> startHook = None)
        /\ (forall err, startHook = None -> started = Some err ->
              snd r = Some (default err errorHook)
              /\ In (ExecuteHooks "error:reversePortForwarding" name (Some err)) (fst r))).
Proof.
  unfold startPortForwardingWithHooks, startReversePortForwardingWithHooks.
  destruct (startForwarding_returns e name portMappings) as [out Hout].
  destruct (startForwarding e name portMappings) as [evs o]. simpl in Hout. subst o.
  assert (Hno : forall err l, In (ExecuteHooks "error:portForwarding" name (Some err))
                                (ExecuteHooks "start:portForwarding" name None
                                 :: map Forwarding l) -> False).
  { intros err l [H|H]; [discriminate|].
    apply in_map_iff in H as (x & Hx & _). discriminate. }
  split; [|split; [|split; [|split]]].
  - intros pluginErr ->. reflexivity.
  - destruct startHook as [pe|]; simpl.
    + split; [discriminate|]. intros [H _]. discriminate.
    + destruct out as [err|]; simpl.
      * destruct errorHook; split; try discriminate; intros [_ H]; discriminate.
      * tauto.
  - intros err. destruct startHook as [pe|]; simpl.
    + split; [intros [H|[]]; discriminate|]. intros [H _]. discriminate.
    + destruct out as [err'|]; simpl.
      * split.
        -- intros [H|H]; [discriminate|]. apply in_app_or in H as [H|[H|[]]].
           ++ apply in_map_iff in H as (x & Hx & _). discriminate.
           ++ injection H as ->. auto.
        -- intros [_ [= ->]]. right. apply in_or_app. right. simpl. auto.
      * split; [intros H; exfalso; exact (Hno _ _ H)|]. intros [_ H]. discriminate.
  - intros err -> [= ->]. simpl. destruct errorHook; reflexivity.
  - intros started arch. cbv zeta. destruct startHook as [pe|]; simpl.
    + split; [split; [discriminate|intros [H _]; discriminate]|].
      split; [split; [intros [H|[]]; discriminate|discriminate]|].
      intros err H. discriminate.
    + destruct started as [err'|]; simpl.
      * split; [split; [destruct errorHook; discriminate|intros [_ H]; discriminate]|].
        split; [tauto|].
        intros err _ [= ->]. split; [destruct errorHook; reflexivity|]. auto.
      * split; [tauto|]. split; [tauto|]. intros err _ H. discriminate.
Qed.

Lemma hooks_around_forwarding_witness :
  startPortForwardingWithHooks (Some brokenPipe) None readyEnv "api" [port8080]
  = ([ExecuteHooks "start:portForwarding" "api" None], Return (Some brokenPipe))
  /\ snd (startPortForwardingWithHooks None (Some brokenPipe) silentEnv "api" [port8080])
     = Return (Some brokenPipe).
Proof.
  split.
  - apply (hooks_around_forwarding (Some brokenPipe) None readyEnv "api" [port8080]).
    reflexivity.
  - destruct (hooks_around_forwarding None (Some brokenPipe) silentEnv "api" [port8080])
      as (_ & _ & _ & H & _).
    apply (H (Errorf "Timeout waiting for port forwarding to start" [])); reflexivity.
Defined.

Lemma StartPortForwarding_inline_witness :
  StartPortForwarding true oneContainer = inr (specMembers oneContainer).
Proof. apply (StartPortForwarding_inline oneContainer). reflexivity. Defined.

End PortForwardingFacts.
